(** * MockSpokePoolClient: a shallow embedding and its verified properties

    The development follows [MockSpokePoolClient] (the mock of the spoke-pool
    indexing client): the event synthesizers [depositV3], [fillV3Relay] and
    [executeV3SlowRelayLeaf], the override setters, [setDepositIds] and the
    update pass [_update].

    Conventions of the embedding.
    - A JavaScript [number] that holds an id, a chain id, a block number or a
      time is a [Z]; an ethers [BigNumber] (an arbitrary-precision integer) is
      a [Z] as well.
    - A property that may be [undefined] is an [option]; [x ?? d] is
      [default d x].
    - A method that mutates [this] takes the client and returns the client
      after the call next to its result.  A method that can throw returns
      [inl error] together with the client as the throw left it.
    - [random], [randomAddress] and [getCurrentTime] read the environment; one
      record of draws ([Entropy]) is handed to every call that uses them. *)

From stdpp Require Import gmap strings list pretty.

Local Open Scope Z_scope.

(** ** Values shared by all records *)

Definition Address := string.
Definition BigNumber := Z.

Definition ZERO_ADDRESS : Address := "0x0000000000000000000000000000000000000000".
Definition bnZero : BigNumber := 0.

(** Modelled from the spec: the [FillType] enumeration of the interfaces
    module, which is not part of the sources at hand.  The spec gives it as
    the closed variant FastFill, SlowFill. *)
Inductive FillType := FastFill | SlowFill.

#[global] Instance FillType_eq_dec : EqDecision FillType.
Proof. solve_decision. Defined.

(** What a failing call throws: [assert] raises an [AssertionError] carrying
    its message, [throw new Error(msg)] raises a plain error. *)
Inductive Exception :=
  | AssertionError (msg : string)
  | Error (msg : string).

(** Template-literal rendering of a number and of a possibly undefined one. *)
Definition toString (n : Z) : string := pretty n.
Definition interpolate (n : option Z) : string :=
  match n with Some k => pretty k | None => "undefined" end.

(** ** Protocol records handed to the synthesizers

    The synthesizers test every property with [??], so each one is optional
    here whatever the TypeScript interface declares. *)

Module RelayExecutionInfo.
Record t := mk {
  updatedRecipient : option Address;
  updatedMessage : option string;
  updatedOutputAmount : option BigNumber;
  fillType : option FillType;
}.
End RelayExecutionInfo.

Module DepositWithBlock.
Record t := mk {
  blockNumber : option Z;
  transactionIndex : option Z;
  depositId : option Z;
  depositor : option Address;
  recipient : option Address;
  originChainId : option Z;
  destinationChainId : option Z;
  inputToken : option Address;
  inputAmount : option BigNumber;
  outputToken : option Address;
  outputAmount : option BigNumber;
  quoteTimestamp : option Z;
  fillDeadline : option Z;
  exclusiveRelayer : option Address;
  exclusivityDeadline : option Z;
  message : option string;
}.

(** A record with every property unset. *)
Definition empty : t :=
  mk None None None None None None None None None None None None None None
     None None.
End DepositWithBlock.

Module FillWithBlock.
Record t := mk {
  blockNumber : option Z;
  transactionIndex : option Z;
  originChainId : option Z;
  destinationChainId : option Z;
  depositId : option Z;
  depositor : option Address;
  recipient : option Address;
  relayer : option Address;
  repaymentChainId : option Z;
  inputToken : option Address;
  inputAmount : option BigNumber;
  outputToken : option Address;
  outputAmount : option BigNumber;
  fillDeadline : option Z;
  exclusiveRelayer : option Address;
  exclusivityDeadline : option Z;
  message : option string;
  relayExecutionInfo : option RelayExecutionInfo.t;
}.

Definition empty : t :=
  mk None None None None None None None None None None None None None None
     None None None None.
End FillWithBlock.

(** A slow-fill leaf.  Its relay data is spread into a fill
    ([{ ...leaf.relayData, ... }]), so it is kept as a fill record: every
    property it carries is copied, whatever the declared interface lists. *)
Module SlowFillLeaf.
Record t := mk {
  relayData : FillWithBlock.t;
  chainId : option Z;
  updatedOutputAmount : option BigNumber;
}.
End SlowFillLeaf.

(** ** Argument payloads of the synthetic events *)

Module DepositArgs.
Record t := mk {
  depositId : Z;
  originChainId : Z;
  destinationChainId : Z;
  depositor : Address;
  recipient : Address;
  inputToken : Address;
  inputAmount : BigNumber;
  outputToken : Address;
  outputAmount : BigNumber;
  quoteTimestamp : Z;
  fillDeadline : Z;
  exclusiveRelayer : Address;
  exclusivityDeadline : Z;
  message : string;
}.
End DepositArgs.

Module ExecutionInfoArgs.
Record t := mk {
  updatedRecipient : Address;
  updatedMessage : string;
  updatedOutputAmount : BigNumber;
  fillType : FillType;
}.
End ExecutionInfoArgs.

Module FillArgs.
Record t := mk {
  inputToken : Address;
  outputToken : Address;
  inputAmount : option BigNumber;
  outputAmount : option BigNumber;
  repaymentChainId : Z;
  originChainId : Z;
  depositId : Z;
  fillDeadline : Z;
  exclusivityDeadline : Z;
  exclusiveRelayer : Address;
  relayer : Address;
  depositor : Address;
  recipient : Address;
  message : string;
  relayExecutionInfo : ExecutionInfoArgs.t;
}.
End FillArgs.

(** The payload of an event.  The update pass reads one property of it,
    [depositId]; the payloads of the event kinds that are not synthesized
    below are kept as that one optional property. *)
Inductive Args :=
  | V3FundsDepositedArgs (a : DepositArgs.t)
  | FilledV3RelayArgs (a : FillArgs.t)
  | PlainArgs (depositId : option Z).

(** [args["depositId"]] *)
Definition args_depositId (a : Args) : option Z :=
  match a with
  | V3FundsDepositedArgs d => Some (DepositArgs.depositId d)
  | FilledV3RelayArgs f => Some (FillArgs.depositId f)
  | PlainArgs o => o
  end.

(** ** Synthetic events and the event manager *)

(** The canonical event shape: type tag, emitting address, stringified
    topics, payload, block number and transaction index. *)
Record Event := mkEvent {
  event : string;
  address : Address;
  topics : list string;
  args : option Args;
  blockNumber : Z;
  transactionIndex : Z;
}.

Record EventGeneratorParams := mkParams {
  p_event : string;
  p_address : Address;
  p_topics : list string;
  p_args : Args;
  p_blockNumber : option Z;
  p_transactionIndex : option Z;
}.

(** The draws one call takes from its environment. *)
Record Entropy := mkEntropy {
  rnd_chainId : Z;            (* random(1, 42161, false) *)
  rnd_depositId : Z;          (* random(1, 100_000, false) *)
  rnd_depositor : Address;    (* randomAddress(), one field per call site *)
  rnd_inputToken : Address;
  rnd_relayer : Address;
  rnd_recipient : Address;
  rnd_inputAmount : BigNumber; (* toBNWei(random(1, 1000, false)) *)
  now : Z;                    (* getCurrentTime() *)
  rnd_blockNumber : Z;        (* position the event manager picks *)
  rnd_transactionIndex : Z;
}.

(** Modelled from the spec: the state of the [EventManager] of the MockEvents
    module, which is not part of the sources at hand.  The spec describes an
    ordered registry of synthetic events, kept in insertion batches that
    flatten to one global order, next to a block counter. *)
Record EventManager := mkEventManager {
  em_blockNumber : Z;
  em_events : list (list Event);
}.

(** Modelled from the spec: [EventManager.getEvents], absent from the sources.
    It returns the stored events grouped by insertion batch and leaves the
    store as it is (the client only appends to the store and reads it). *)
Definition getEvents (em : EventManager) : list (list Event) := em_events em.

(** Modelled from the spec: [EventManager.generateEvent], absent from the
    sources.  It resolves the block and transaction position (the caller's
    when given, otherwise one the store picks), keeps every other field as
    handed in, appends the finished event after all stored ones and returns
    it; the block counter moves to the event's block. *)
Definition generateEvent (ent : Entropy) (p : EventGeneratorParams)
    (em : EventManager) : Event * EventManager :=
  let blockNumber := default (rnd_blockNumber ent) (p_blockNumber p) in
  let transactionIndex :=
    default (rnd_transactionIndex ent) (p_transactionIndex p) in
  let generatedEvent :=
    {| event := p_event p; address := p_address p; topics := p_topics p;
       args := Some (p_args p); blockNumber := blockNumber;
       transactionIndex := transactionIndex |} in
  (generatedEvent,
   {| em_blockNumber := blockNumber;
      em_events := em_events em ++ [[generatedEvent]] |}).

(** The events of the store in their global order: [getEvents().flat()]. *)
Definition stored (em : EventManager) : list Event := concat (getEvents em).

(** ** The client *)

Section MockSpokePoolClient.

(** [providers.Block] of ethers: per-block metadata, opaque to the client. *)
Context {Block : Type}.

(** [event.getBlock()], a method the event manager attaches to the events it
    generates (MockEvents, absent from the sources): taken as a parameter. *)
Variable getBlock : Event → Block.

(** [toBN] of the utils module, absent from the sources: taken as a
    parameter.  It parses a decimal string into a [BigNumber]. *)
Variable toBN : string → BigNumber.

(** The fields of the class, preceded by the inherited [SpokePoolClient]
    fields that the methods below read or write. *)
Record Client := mkClient {
  chainId : Z;
  spokePool_address : Address;
  latestBlockSearched : Z;
  latestDepositIdQueried : Z;
  eventSearchConfig_toBlock : option Z;
  eventManager : EventManager;
  realizedLpFeePct : BigNumber;
  realizedLpFeePctOverride : bool;
  destinationTokenForChainOverride : gmap Z Address;
  depositIdAtBlock : list Z;
  numberOfDeposits : Z;
  blocks : gmap Z Block;
}.

(** Field assignments, [this.f = v]. *)
Definition set_latestBlockSearched (v : Z) (c : Client) : Client :=
  mkClient (chainId c) (spokePool_address c) v (latestDepositIdQueried c)
    (eventSearchConfig_toBlock c) (eventManager c) (realizedLpFeePct c)
    (realizedLpFeePctOverride c) (destinationTokenForChainOverride c)
    (depositIdAtBlock c) (numberOfDeposits c) (blocks c).

Definition set_eventManager (v : EventManager) (c : Client) : Client :=
  mkClient (chainId c) (spokePool_address c) (latestBlockSearched c)
    (latestDepositIdQueried c) (eventSearchConfig_toBlock c) v
    (realizedLpFeePct c) (realizedLpFeePctOverride c)
    (destinationTokenForChainOverride c) (depositIdAtBlock c)
    (numberOfDeposits c) (blocks c).

Definition set_realizedLpFeePct (v : BigNumber) (c : Client) : Client :=
  mkClient (chainId c) (spokePool_address c) (latestBlockSearched c)
    (latestDepositIdQueried c) (eventSearchConfig_toBlock c)
    (eventManager c) v (realizedLpFeePctOverride c)
    (destinationTokenForChainOverride c) (depositIdAtBlock c)
    (numberOfDeposits c) (blocks c).

Definition set_realizedLpFeePctOverride (v : bool) (c : Client) : Client :=
  mkClient (chainId c) (spokePool_address c) (latestBlockSearched c)
    (latestDepositIdQueried c) (eventSearchConfig_toBlock c)
    (eventManager c) (realizedLpFeePct c) v
    (destinationTokenForChainOverride c) (depositIdAtBlock c)
    (numberOfDeposits c) (blocks c).

Definition set_destinationTokenForChainOverride (v : gmap Z Address)
    (c : Client) : Client :=
  mkClient (chainId c) (spokePool_address c) (latestBlockSearched c)
    (latestDepositIdQueried c) (eventSearchConfig_toBlock c)
    (eventManager c) (realizedLpFeePct c) (realizedLpFeePctOverride c) v
    (depositIdAtBlock c) (numberOfDeposits c) (blocks c).

Definition set_depositIdAtBlock (v : list Z) (c : Client) : Client :=
  mkClient (chainId c) (spokePool_address c) (latestBlockSearched c)
    (latestDepositIdQueried c) (eventSearchConfig_toBlock c)
    (eventManager c) (realizedLpFeePct c) (realizedLpFeePctOverride c)
    (destinationTokenForChainOverride c) v (numberOfDeposits c) (blocks c).

Definition set_numberOfDeposits (v : Z) (c : Client) : Client :=
  mkClient (chainId c) (spokePool_address c) (latestBlockSearched c)
    (latestDepositIdQueried c) (eventSearchConfig_toBlock c)
    (eventManager c) (realizedLpFeePct c) (realizedLpFeePctOverride c)
    (destinationTokenForChainOverride c) (depositIdAtBlock c) v (blocks c).

Definition set_blocks (v : gmap Z Block) (c : Client) : Client :=
  mkClient (chainId c) (spokePool_address c) (latestBlockSearched c)
    (latestDepositIdQueried c) (eventSearchConfig_toBlock c)
    (eventManager c) (realizedLpFeePct c) (realizedLpFeePctOverride c)
    (destinationTokenForChainOverride c) (depositIdAtBlock c)
    (numberOfDeposits c) v.

(** The constructor.  [base] is the client as [super(...)] leaves its
    inherited fields and [em] the manager [getEventManager] hands out; the
    class fields take their initialisers. *)
Definition new_MockSpokePoolClient (base : Client) (em : EventManager)
    (deploymentBlock : Z) : Client :=
  {| chainId := chainId base;
     spokePool_address := spokePool_address base;
     latestBlockSearched := deploymentBlock;
     latestDepositIdQueried := latestDepositIdQueried base;
     eventSearchConfig_toBlock := eventSearchConfig_toBlock base;
     eventManager := em;
     realizedLpFeePct := bnZero;
     realizedLpFeePctOverride := false;
     destinationTokenForChainOverride := ∅;
     depositIdAtBlock := [];
     numberOfDeposits := 0;
     blocks := ∅ |}.

(** *** Override layer *)

Definition setDefaultRealizedLpFeePct (fee : BigNumber) (c : Client) : Client :=
  set_realizedLpFeePctOverride true (set_realizedLpFeePct fee c).

Definition clearDefaultRealizedLpFeePct (c : Client) : Client :=
  set_realizedLpFeePctOverride false c.

Definition setDestinationTokenForChain (chain : Z) (token : Address)
    (c : Client) : Client :=
  set_destinationTokenForChainOverride
    (<[chain := token]> (destinationTokenForChainOverride c)) c.

Definition setLatestBlockNumber (blockNumber : Z) (c : Client) : Client :=
  set_latestBlockSearched blockNumber c.

(** [a[i] = x] on a JavaScript array whose length is at least [i]: an
    element in range is replaced, the index one past the end extends the
    array.  ([setDepositIds] writes the indices 0, 1, 2, ... into an array
    it has just emptied, so it never skips an index.) *)
Definition array_write (i : nat) (x : Z) (a : list Z) : list Z :=
  if decide (i < length a)%nat then <[i := x]> a else a ++ [x].

Definition setDepositIds_error : string :=
  "deposit ID must be equal to or greater than previous".

(** The [for] loop of [setDepositIds], entered at index [i] with the
    elements [rest] still to visit. *)
Fixpoint setDepositIds_loop (rest : list Z) (i : nat) (lastDepositId : Z)
    (c : Client) : (Exception + unit) * Client :=
  match rest with
  | [] => (inr tt, c)
  | x :: rest' =>
      if bool_decide (x < lastDepositId) then
        (inl (Error setDepositIds_error), c)
      else
        setDepositIds_loop rest' (S i) x
          (set_depositIdAtBlock (array_write i x (depositIdAtBlock c)) c)
  end.

Definition setDepositIds (_depositIds : list Z) (c : Client)
    : (Exception + unit) * Client :=
  let c := set_depositIdAtBlock [] c in
  match _depositIds with
  | [] => (inr tt, c)
  | first :: _ => setDepositIds_loop _depositIds 0 first c
  end.

(** [this.depositIdAtBlock[blockTag]], undefined out of range. *)
Definition _getDepositIdAtBlock (blockTag : nat) (c : Client) : option Z :=
  depositIdAtBlock c !! blockTag.

(** *** Event synthesizers *)

Definition depositV3 (ent : Entropy) (deposit : DepositWithBlock.t)
    (c : Client) : (Exception + Event) * Client :=
  let event := "V3FundsDeposited" in
  let blockNumber := DepositWithBlock.blockNumber deposit in
  let transactionIndex := DepositWithBlock.transactionIndex deposit in
  let depositId :=
    default (numberOfDeposits c) (DepositWithBlock.depositId deposit) in
  if bool_decide (depositId >= numberOfDeposits c) then
    let c := set_numberOfDeposits (depositId + 1) c in
    let destinationChainId :=
      default (rnd_chainId ent) (DepositWithBlock.destinationChainId deposit) in
    let depositor :=
      default (rnd_depositor ent) (DepositWithBlock.depositor deposit) in
    let inputToken :=
      default (rnd_inputToken ent) (DepositWithBlock.inputToken deposit) in
    let outputToken :=
      default inputToken (DepositWithBlock.outputToken deposit) in
    let inputAmount :=
      default (rnd_inputAmount ent) (DepositWithBlock.inputAmount deposit) in
    let outputAmount :=
      default (inputAmount * toBN "0.95")
              (DepositWithBlock.outputAmount deposit) in
    let message :=
      default (event +:+ " event at block " +:+ interpolate blockNumber
                 +:+ ", index " +:+ interpolate transactionIndex +:+ ".")
              (DepositWithBlock.message deposit) in
    let topics :=
      [toString destinationChainId; toString depositId; depositor] in
    let quoteTimestamp :=
      default (now ent) (DepositWithBlock.quoteTimestamp deposit) in
    let args :=
      {| DepositArgs.depositId := depositId;
         DepositArgs.originChainId :=
           default (chainId c) (DepositWithBlock.originChainId deposit);
         DepositArgs.destinationChainId := destinationChainId;
         DepositArgs.depositor := depositor;
         DepositArgs.recipient :=
           default depositor (DepositWithBlock.recipient deposit);
         DepositArgs.inputToken := inputToken;
         DepositArgs.inputAmount := inputAmount;
         DepositArgs.outputToken := outputToken;
         DepositArgs.outputAmount := outputAmount;
         DepositArgs.quoteTimestamp := quoteTimestamp;
         DepositArgs.fillDeadline :=
           default (quoteTimestamp + 3600)
                   (DepositWithBlock.fillDeadline deposit);
         DepositArgs.exclusiveRelayer :=
           default ZERO_ADDRESS (DepositWithBlock.exclusiveRelayer deposit);
         DepositArgs.exclusivityDeadline :=
           default (quoteTimestamp + 600)
                   (DepositWithBlock.exclusivityDeadline deposit);
         DepositArgs.message := message |} in
    let '(generated, em) :=
      generateEvent ent
        {| p_event := event; p_address := spokePool_address c;
           p_topics := topics; p_args := V3FundsDepositedArgs args;
           p_blockNumber := blockNumber;
           p_transactionIndex := transactionIndex |}
        (eventManager c) in
    (inr generated, set_eventManager em c)
  else
    (inl (AssertionError
            (toString depositId +:+ " < " +:+ toString (numberOfDeposits c))),
     c).

Definition fillV3Relay (ent : Entropy) (fill : FillWithBlock.t)
    (c : Client) : Event * Client :=
  let event := "FilledV3Relay" in
  let blockNumber := FillWithBlock.blockNumber fill in
  let transactionIndex := FillWithBlock.transactionIndex fill in
  let originChainId :=
    default (rnd_chainId ent) (FillWithBlock.originChainId fill) in
  let depositId :=
    default (rnd_depositId ent) (FillWithBlock.depositId fill) in
  let inputToken :=
    default (rnd_inputToken ent) (FillWithBlock.inputToken fill) in
  let inputAmount :=
    default (rnd_inputAmount ent) (FillWithBlock.inputAmount fill) in
  let outputAmount :=
    default inputAmount (FillWithBlock.outputAmount fill) in
  let fillDeadline :=
    default (now ent + 60) (FillWithBlock.fillDeadline fill) in
  let relayer := default (rnd_relayer ent) (FillWithBlock.relayer fill) in
  let topics := [toString originChainId; toString depositId; relayer] in
  let recipient :=
    default (rnd_recipient ent) (FillWithBlock.recipient fill) in
  let message :=
    default (event +:+ " event at block " +:+ interpolate blockNumber
               +:+ ", index " +:+ interpolate transactionIndex +:+ ".")
            (FillWithBlock.message fill) in
  let info := FillWithBlock.relayExecutionInfo fill in
  let args :=
    {| FillArgs.inputToken := inputToken;
       FillArgs.outputToken :=
         default ZERO_ADDRESS (FillWithBlock.outputToken fill);
       FillArgs.inputAmount := FillWithBlock.inputAmount fill;
       FillArgs.outputAmount := FillWithBlock.outputAmount fill;
       FillArgs.repaymentChainId :=
         default (chainId c) (FillWithBlock.repaymentChainId fill);
       FillArgs.originChainId := originChainId;
       FillArgs.depositId := depositId;
       FillArgs.fillDeadline := fillDeadline;
       FillArgs.exclusivityDeadline :=
         default fillDeadline (FillWithBlock.exclusivityDeadline fill);
       FillArgs.exclusiveRelayer :=
         default ZERO_ADDRESS (FillWithBlock.exclusiveRelayer fill);
       FillArgs.relayer := relayer;
       FillArgs.depositor :=
         default (rnd_depositor ent) (FillWithBlock.depositor fill);
       FillArgs.recipient := recipient;
       FillArgs.message := message;
       FillArgs.relayExecutionInfo :=
         {| ExecutionInfoArgs.updatedRecipient :=
              default recipient
                (info ≫= RelayExecutionInfo.updatedRecipient);
            ExecutionInfoArgs.updatedMessage :=
              default message (info ≫= RelayExecutionInfo.updatedMessage);
            ExecutionInfoArgs.updatedOutputAmount :=
              default outputAmount
                (info ≫= RelayExecutionInfo.updatedOutputAmount);
            ExecutionInfoArgs.fillType :=
              default FastFill (info ≫= RelayExecutionInfo.fillType) |} |} in
  let '(generated, em) :=
    generateEvent ent
      {| p_event := event; p_address := spokePool_address c;
         p_topics := topics; p_args := FilledV3RelayArgs args;
         p_blockNumber := blockNumber;
         p_transactionIndex := transactionIndex |}
      (eventManager c) in
  (generated, set_eventManager em c).

(** A wrapper around [fillV3Relay]: the leaf's relay data is spread into a
    fill and four properties are written over it. *)
Definition executeV3SlowRelayLeaf (ent : Entropy) (leaf : SlowFillLeaf.t)
    (c : Client) : Event * Client :=
  let relayData := SlowFillLeaf.relayData leaf in
  let fill :=
    {| FillWithBlock.blockNumber := FillWithBlock.blockNumber relayData;
       FillWithBlock.transactionIndex :=
         FillWithBlock.transactionIndex relayData;
       FillWithBlock.originChainId := FillWithBlock.originChainId relayData;
       FillWithBlock.destinationChainId := Some (chainId c);
       FillWithBlock.depositId := FillWithBlock.depositId relayData;
       FillWithBlock.depositor := FillWithBlock.depositor relayData;
       FillWithBlock.recipient := FillWithBlock.recipient relayData;
       FillWithBlock.relayer := Some ZERO_ADDRESS;
       FillWithBlock.repaymentChainId := Some 0;
       FillWithBlock.inputToken := FillWithBlock.inputToken relayData;
       FillWithBlock.inputAmount := FillWithBlock.inputAmount relayData;
       FillWithBlock.outputToken := FillWithBlock.outputToken relayData;
       FillWithBlock.outputAmount := FillWithBlock.outputAmount relayData;
       FillWithBlock.fillDeadline := FillWithBlock.fillDeadline relayData;
       FillWithBlock.exclusiveRelayer :=
         FillWithBlock.exclusiveRelayer relayData;
       FillWithBlock.exclusivityDeadline :=
         FillWithBlock.exclusivityDeadline relayData;
       FillWithBlock.message := FillWithBlock.message relayData;
       FillWithBlock.relayExecutionInfo :=
         Some {| RelayExecutionInfo.updatedRecipient :=
                   FillWithBlock.recipient relayData;
                 RelayExecutionInfo.updatedOutputAmount :=
                   SlowFillLeaf.updatedOutputAmount leaf;
                 RelayExecutionInfo.updatedMessage :=
                   FillWithBlock.message relayData;
                 RelayExecutionInfo.fillType := Some SlowFill |} |} in
  fillV3Relay ent fill c.

(** *** Update engine *)

Record SpokePoolUpdate := mkUpdate {
  success : bool;
  firstDepositId : Z;
  latestDepositId : Z;
  currentTime : Z;
  oldestTime : Z;
  events : list (list Event);
  searchEndBlock : Z;
  hasCCTPBridgingEnabled : bool;
}.

(** [Array.prototype.indexOf] on strings: the first position holding [x];
    [None] stands for the result -1. *)
Fixpoint indexOf (l : list string) (x : string) : option nat :=
  match l with
  | [] => None
  | y :: l' => if decide (y = x) then Some 0%nat else S <$> indexOf l' x
  end.

(** The callback [forEachAsync] runs on one stored event: the event goes to
    the bucket of its type when that type is requested, and its block is
    recorded. *)
Definition update_visit (eventsToQuery : list string)
    (acc : list (list Event) * gmap Z Block) (ev : Event)
    : list (list Event) * gmap Z Block :=
  match indexOf eventsToQuery (event ev) with
  | Some idx =>
      (alter (λ bucket, bucket ++ [ev]) idx acc.1,
       <[blockNumber ev := getBlock ev]> acc.2)
  | None => acc
  end.

(** [a || b] on an optional number: [undefined] and 0 are falsy. *)
Definition or_else (a : option Z) (b : Z) : Z :=
  match a with
  | Some v => if bool_decide (v = 0) then b else v
  | None => b
  end.

(** [event.args?.["depositId"] ?? 0] *)
Definition depositId_or_zero (ev : Event) : Z :=
  default 0 (args ev ≫= args_depositId).

(** [forEachAsync] visits the events one after the other, awaiting each
    callback before the next: a left fold. *)
Definition _update (ent : Entropy) (eventsToQuery : list string)
    (c : Client) : SpokePoolUpdate * Client :=
  let latestBlockSearched := em_blockNumber (eventManager c) in
  let currentTime := now ent in
  let '(events, blocks) :=
    foldl (update_visit eventsToQuery)
          ((λ _, []) <$> eventsToQuery, ∅)
          (concat (getEvents (eventManager c))) in
  let c := set_blocks blocks c in
  let idx := indexOf eventsToQuery "V3FundsDeposited" in
  let latestDepositId :=
    foldl (λ depositId ev, Z.max depositId (depositId_or_zero ev))
          (latestDepositIdQueried c)
          (default [] (idx ≫= λ i, events !! i)) in
  ({| success := true;
      firstDepositId := 0;
      latestDepositId := latestDepositId;
      currentTime := currentTime;
      oldestTime := 0;
      events := events;
      searchEndBlock :=
        or_else (eventSearchConfig_toBlock c) latestBlockSearched;
      hasCCTPBridgingEnabled := false |},
   c).

(** *** Running several deposit calls *)

(** The calls of a test, one after the other on the same client; the result
    of every call is kept, and a call that throws leaves the client to the
    next call as it was when the exception was raised. *)
Fixpoint depositV3_calls (calls : list (Entropy * DepositWithBlock.t))
    (c : Client) : list (Exception + Event) * Client :=
  match calls with
  | [] => ([], c)
  | (ent, deposit) :: calls' =>
      let '(r, c1) := depositV3 ent deposit c in
      let '(rs, c2) := depositV3_calls calls' c1 in
      (r :: rs, c2)
  end.

(** The deposit id a call handed out: the [depositId] of the event it
    returned. *)
Definition assigned_depositId (r : Exception + Event) : option Z :=
  match r with
  | inr ev => args ev ≫= args_depositId
  | inl _ => None
  end.

(** *** The statements of the spec, in its own words *)

(** The deposit events held by the store. *)
Definition deposit_events (l : list Event) : list Event :=
  filter (λ ev, event ev = "V3FundsDeposited") l.

(** "The maximum of the previously recorded high-water mark and the deposit
    ids of all synthesized deposit events observed up to that point." *)
Definition spec_latestDepositId (highWaterMark : Z) (l : list Event) : Z :=
  foldr Z.max highWaterMark (depositId_or_zero <$> deposit_events l).

(** "The i-th bucket contains exactly the stored events whose type tag
    equals the i-th requested type, in insertion order." *)
Definition spec_bucket (type : string) (l : list Event) : list Event :=
  filter (λ ev, event ev = type) l.

(** A sequence with no decreasing adjacent pair, and one that is strictly
    increasing. *)
Fixpoint nondecreasing (l : list Z) : Prop :=
  match l with
  | x :: (y :: _) as l' => x ≤ y ∧ nondecreasing l'
  | _ => True
  end.

Fixpoint strictly_increasing (l : list Z) : Prop :=
  match l with
  | x :: (y :: _) as l' => x < y ∧ strictly_increasing l'
  | _ => True
  end.

End MockSpokePoolClient.

(** ** Sample data

    A concrete environment, store and client on which the statements below
    are run.  Block metadata is taken to be the block number. *)

Definition sample_entropy : Entropy :=
  {| rnd_chainId := 10; rnd_depositId := 77;
     rnd_depositor := "0xdddddddddddddddddddddddddddddddddddddddd";
     rnd_inputToken := "0x1111111111111111111111111111111111111111";
     rnd_relayer := "0x2222222222222222222222222222222222222222";
     rnd_recipient := "0x3333333333333333333333333333333333333333";
     rnd_inputAmount := 500; now := 1700000000;
     rnd_blockNumber := 12; rnd_transactionIndex := 3 |}.

Definition sample_getBlock (ev : Event) : Z := blockNumber ev.

(** An integer-valued parser to run [depositV3] with; the statements about
    [depositV3] hold for every [toBN]. *)
Definition sample_toBN (s : string) : BigNumber := 0.

Definition sample_manager : EventManager :=
  {| em_blockNumber := 0; em_events := [] |}.

Definition sample_base : @Client Z :=
  {| chainId := 1;
     spokePool_address := "0x9999999999999999999999999999999999999999";
     latestBlockSearched := 0; latestDepositIdQueried := 0;
     eventSearchConfig_toBlock := None; eventManager := sample_manager;
     realizedLpFeePct := 0; realizedLpFeePctOverride := false;
     destinationTokenForChainOverride := ∅; depositIdAtBlock := [];
     numberOfDeposits := 0; blocks := ∅ |}.

Definition sample_client : @Client Z :=
  new_MockSpokePoolClient sample_base sample_manager 0.

(** A deposit record that only sets its id. *)
Definition deposit_with_id (id : Z) : DepositWithBlock.t :=
  DepositWithBlock.mk None None (Some id) None None None None None None None
    None None None None None None.

(** The sample client after one deposit with the explicit id 7. *)
Definition client_after_deposit_7 : @Client Z :=
  (depositV3 sample_toBN sample_entropy (deposit_with_id 7) sample_client).2.

(** The sample client after one fill with every property unset. *)
Definition client_after_fill : @Client Z :=
  (fillV3Relay sample_entropy FillWithBlock.empty sample_client).2.

(** ** The rest of the client

    The methods that defer to the inherited [SpokePoolClient], and the
    synthesizers of the remaining event kinds. *)

Module RealizedLpFee.
Record t := mk {
  realizedLpFeePct : BigNumber;
  quoteBlock : Z;
}.
End RealizedLpFee.

(** A speed-up record.  The synthesizer reads its deposit id and depositor
    for the topics and copies the whole record into the payload. *)
Module SpeedUp.
Record t := mk {
  depositId : Z;
  depositor : Address;
}.
End SpeedUp.

Module SlowFillRequestWithBlock.
Record t := mk {
  originChainId : Z;
  depositId : Z;
  blockNumber : option Z;
  transactionIndex : option Z;
}.
End SlowFillRequestWithBlock.

Module RelayerRefundExecutionWithBlock.
Record t := mk {
  chainId : option Z;
  rootBundleId : Z;
  leafId : Z;
  amountToReturn : BigNumber;
  l2TokenAddress : Address;
  refundAddresses : list Address;
  refundAmounts : list BigNumber;
  blockNumber : option Z;
}.
End RelayerRefundExecutionWithBlock.

(** [assert(cond)] called without a message raises an [AssertionError]
    whose message Node composes from the failed expression; the embedding
    keeps the fixed first line of it. *)
Definition assert_falsy_message : string :=
  "The expression evaluated to a falsy value".

Section InheritedMethods.

Context {Block : Type}.

(** The three methods of the inherited [SpokePoolClient] that the mock
    overrides and falls back on; the base class is absent from the sources,
    so they are parameters.  They may read the client. *)
Variable super_computeRealizedLpFeePct :
  @Client Block → Event → RealizedLpFee.t.
Variable super_batchComputeRealizedLpFeePct :
  @Client Block → list Event → list RealizedLpFee.t.
Variable super_getDestinationTokenForDeposit :
  @Client Block → DepositWithBlock.t → Address.

Definition computeRealizedLpFeePct (depositEvent : Event) (c : @Client Block)
    : RealizedLpFee.t :=
  let quoteBlock := blockNumber depositEvent in
  if realizedLpFeePctOverride c then
    {| RealizedLpFee.realizedLpFeePct := realizedLpFeePct c;
       RealizedLpFee.quoteBlock := quoteBlock |}
  else super_computeRealizedLpFeePct c depositEvent.

Definition batchComputeRealizedLpFeePct (depositEvents : list Event)
    (c : @Client Block) : list RealizedLpFee.t :=
  if realizedLpFeePctOverride c then
    (λ ev, {| RealizedLpFee.realizedLpFeePct := realizedLpFeePct c;
              RealizedLpFee.quoteBlock := blockNumber ev |})
      <$> depositEvents
  else super_batchComputeRealizedLpFeePct c depositEvents.

(** [this.destinationTokenForChainOverride[deposit.originChainId] ?? super...];
    a deposit without an origin chain id finds no override. *)
Definition getDestinationTokenForDeposit (deposit : DepositWithBlock.t)
    (c : @Client Block) : Address :=
  default (super_getDestinationTokenForDeposit c deposit)
    (DepositWithBlock.originChainId deposit
       ≫= λ chain, destinationTokenForChainOverride c !! chain).

End InheritedMethods.

Section OtherSynthesizers.

Context {Block : Type}.

(** The four synthesizers below hand their record to the event manager as
    the payload.  [Args] keeps of such a payload the one property the update
    pass reads, its [depositId]. *)

Definition speedUpV3Deposit (ent : Entropy) (speedUp : SpeedUp.t)
    (c : @Client Block) : Event * Client :=
  let event := "RequestedSpeedUpV3Deposit" in
  let topics :=
    [toString (SpeedUp.depositId speedUp); SpeedUp.depositor speedUp] in
  let '(generated, em) :=
    generateEvent ent
      {| p_event := event; p_address := spokePool_address c;
         p_topics := topics;
         p_args := PlainArgs (Some (SpeedUp.depositId speedUp));
         p_blockNumber := None; p_transactionIndex := None |}
      (eventManager c) in
  (generated, set_eventManager em c).

Definition requestV3SlowFill (ent : Entropy)
    (request : SlowFillRequestWithBlock.t) (c : @Client Block)
    : Event * Client :=
  let event := "RequestedV3SlowFill" in
  let originChainId := SlowFillRequestWithBlock.originChainId request in
  let depositId := SlowFillRequestWithBlock.depositId request in
  let topics := [toString originChainId; toString depositId] in
  let '(generated, em) :=
    generateEvent ent
      {| p_event := event; p_address := spokePool_address c;
         p_topics := topics; p_args := PlainArgs (Some depositId);
         p_blockNumber := SlowFillRequestWithBlock.blockNumber request;
         p_transactionIndex :=
           SlowFillRequestWithBlock.transactionIndex request |}
      (eventManager c) in
  (generated, set_eventManager em c).

Definition executeRelayerRefundLeaf (ent : Entropy)
    (refund : RelayerRefundExecutionWithBlock.t) (c : @Client Block)
    : (Exception + Event) * Client :=
  let event := "ExecutedRelayerRefundRoot" in
  let chain :=
    default (chainId c) (RelayerRefundExecutionWithBlock.chainId refund) in
  if bool_decide (chain = chainId c) then
    let rootBundleId := RelayerRefundExecutionWithBlock.rootBundleId refund in
    let leafId := RelayerRefundExecutionWithBlock.leafId refund in
    let topics := [toString chain; toString rootBundleId; toString leafId] in
    let '(generated, em) :=
      generateEvent ent
        {| p_event := event; p_address := spokePool_address c;
           p_topics := topics; p_args := PlainArgs None;
           p_blockNumber := RelayerRefundExecutionWithBlock.blockNumber refund;
           p_transactionIndex := None |}
        (eventManager c) in
    (inr generated, set_eventManager em c)
  else (inl (AssertionError assert_falsy_message), c).

Definition setEnableRoute (ent : Entropy) (originToken : Address)
    (destinationChainId : Z) (enabled : bool) (overrides_blockNumber : option Z)
    (c : @Client Block) : Event * Client :=
  let event := "EnabledDepositRoute" in
  let topics := [originToken; toString destinationChainId] in
  let '(generated, em) :=
    generateEvent ent
      {| p_event := event; p_address := spokePool_address c;
         p_topics := topics; p_args := PlainArgs None;
         p_blockNumber := overrides_blockNumber;
         p_transactionIndex := None |}
      (eventManager c) in
  (generated, set_eventManager em c).

(** *** Notions used in the statements *)

(** Every deposit event of the store carries an id below the client's
    number-of-deposits counter. *)
Definition deposits_below_counter (c : @Client Block) : Prop :=
  ∀ ev, ev ∈ stored (eventManager c) → event ev = "V3FundsDeposited" →
        depositId_or_zero ev < numberOfDeposits c.

(** The events the successful calls of a run returned, in call order. *)
Definition generated_events (results : list (Exception + Event)) : list Event :=
  omap (λ r, match r with inr ev => Some ev | inl _ => None end) results.


(** The fill payload of an event, when it has one. *)
Definition fill_args (ev : Event) : option FillArgs.t :=
  match args ev with
  | Some (FilledV3RelayArgs a) => Some a
  | _ => None
  end.

(** What an appending call is to the client: one more event at the end of
    the store and no other field changed. *)
Definition appends_only c (run : Event * @Client Block) (tag : string) : Prop :=
  ∃ em,
    run.2 = set_eventManager em c
    ∧ stored em = stored (eventManager c) ++ [run.1]
    ∧ event run.1 = tag.

End OtherSynthesizers.

(** ** More sample data *)

Definition sample_super_computeRealizedLpFeePct (c : @Client Z) (ev : Event)
    : RealizedLpFee.t :=
  {| RealizedLpFee.realizedLpFeePct := 1; RealizedLpFee.quoteBlock := 0 |}.

Definition sample_super_batchComputeRealizedLpFeePct (c : @Client Z)
    (evs : list Event) : list RealizedLpFee.t :=
  sample_super_computeRealizedLpFeePct c <$> evs.

Definition sample_super_getDestinationTokenForDeposit (c : @Client Z)
    (deposit : DepositWithBlock.t) : Address :=
  ZERO_ADDRESS.

(** A deposit record that only sets its origin chain. *)
Definition deposit_from_chain (chain : Z) : DepositWithBlock.t :=
  DepositWithBlock.mk None None None None None (Some chain) None None None
    None None None None None None None.

(** Fill records that only set an output amount, or an input amount. *)
Definition fill_with_outputAmount (amount : BigNumber) : FillWithBlock.t :=
  FillWithBlock.mk None None None None None None None None None None None
    None (Some amount) None None None None None.

Definition fill_with_inputAmount (amount : BigNumber) : FillWithBlock.t :=
  FillWithBlock.mk None None None None None None None None None None
    (Some amount) None None None None None None None.

(** A leaf whose relay data names a relayer and a repayment chain of its
    own, and which carries an updated output amount. *)
Definition sample_leaf : SlowFillLeaf.t :=
  {| SlowFillLeaf.relayData :=
       FillWithBlock.mk None None (Some 10) None (Some 7) None None
         (Some "0x2222222222222222222222222222222222222222") (Some 42161)
         None (Some 1000) None (Some 990) None None None None None;
     SlowFillLeaf.chainId := Some 1;
     SlowFillLeaf.updatedOutputAmount := Some 25 |}.

Definition refund_on_chain (chain : option Z)
    : RelayerRefundExecutionWithBlock.t :=
  {| RelayerRefundExecutionWithBlock.chainId := chain;
     RelayerRefundExecutionWithBlock.rootBundleId := 4;
     RelayerRefundExecutionWithBlock.leafId := 2;
     RelayerRefundExecutionWithBlock.amountToReturn := 0;
     RelayerRefundExecutionWithBlock.l2TokenAddress :=
       "0x1111111111111111111111111111111111111111";
     RelayerRefundExecutionWithBlock.refundAddresses := [];
     RelayerRefundExecutionWithBlock.refundAmounts := [];
     RelayerRefundExecutionWithBlock.blockNumber := None |}.

(** The sample client with a search range that ends at [toBlock]. *)
Definition client_with_toBlock (toBlock : option Z) : @Client Z :=
  {| chainId := 1;
     spokePool_address := "0x9999999999999999999999999999999999999999";
     latestBlockSearched := 0; latestDepositIdQueried := 0;
     eventSearchConfig_toBlock := toBlock; eventManager := sample_manager;
     realizedLpFeePct := 0; realizedLpFeePctOverride := false;
     destinationTokenForChainOverride := ∅; depositIdAtBlock := [];
     numberOfDeposits := 0; blocks := ∅ |}.

(** * Properties *)

Section Properties.

Context {Block : Type}.
Variable getBlock : Event → Block.
Variable toBN : string → BigNumber.

Implicit Types (c : @Client Block) (ent : Entropy).

(* A statement depends on the parameters it mentions and on no other. *)
Local Set Default Proof Using "Type".

(** ** The store under synthesis *)

Lemma stored_generateEvent ent p em :
  stored (generateEvent ent p em).2 = stored em ++ [(generateEvent ent p em).1].
Proof.
  unfold stored, getEvents, generateEvent; simpl.
  by rewrite concat_app; simpl.
Qed.

(** A deposit call that passes the assertion: what it returns and how it
    leaves the client. *)
Lemma depositV3_accepts ent deposit c :
  let id :=
    default (numberOfDeposits c) (DepositWithBlock.depositId deposit) in
  id >= numberOfDeposits c →
  ∃ ev c',
    depositV3 toBN ent deposit c = (inr ev, c')
    ∧ args ev ≫= args_depositId = Some id
    ∧ numberOfDeposits c' = id + 1
    ∧ stored (eventManager c') = stored (eventManager c) ++ [ev].
Proof.
  intros id Hge. unfold depositV3. fold id.
  rewrite bool_decide_eq_true_2 by done.
  unfold generateEvent. cbv beta iota zeta.
  do 2 eexists. split; [reflexivity|].
  split; [reflexivity|]. split; [reflexivity|].
  unfold stored, getEvents. cbn [eventManager set_eventManager em_events].
  by rewrite concat_app.
Qed.

Lemma depositV3_calls_from ent_deposits c :
  Forall (λ call, DepositWithBlock.depositId call.2 = None) ent_deposits →
  assigned_depositId <$> (depositV3_calls toBN ent_deposits c).1 =
    Some <$> seqZ (numberOfDeposits c) (Z.of_nat (length ent_deposits))
  ∧ numberOfDeposits (depositV3_calls toBN ent_deposits c).2 =
      numberOfDeposits c + Z.of_nat (length ent_deposits).
Proof.
  intros Hunset. revert c.
  induction Hunset as [|[ent deposit] calls Hid _ IH]; intros c.
  - simpl. split; [done | lia].
  - simpl in Hid.
    destruct (depositV3_accepts ent deposit c)
      as (ev & c1 & Hrun & Hdep & Hcount & _).
    { rewrite Hid; simpl; lia. }
    rewrite Hid in Hdep, Hcount; simpl in Hdep, Hcount.
    cbn [depositV3_calls]. rewrite Hrun.
    destruct (IH c1) as [IHids IHcount].
    destruct (depositV3_calls toBN calls c1) as [rs c2].
    cbn [fst snd fmap list_fmap assigned_depositId length] in *.
    rewrite Nat2Z.inj_succ, seqZ_cons by lia.
    split.
    + rewrite fmap_cons, Hdep. f_equal. rewrite IHids, Hcount.
      by replace (Z.pred (Z.succ (Z.of_nat (length calls))))
        with (Z.of_nat (length calls)) by lia.
    + lia.
Qed.

(** C1.  Starting from a fresh client, every sequence of N deposit
    synthesis calls that leave the deposit id unset succeeds, the ids
    assigned are exactly 0, 1, ..., N-1 in call order, and after the N-th
    call the number-of-deposits counter equals N. *)
Theorem depositV3_assigns_consecutive_ids
    (base : @Client Block) (em : EventManager) (deploymentBlock : Z)
    (calls : list (Entropy * DepositWithBlock.t)) :
  Forall (λ call, DepositWithBlock.depositId call.2 = None) calls →
  let run :=
    depositV3_calls toBN calls
      (new_MockSpokePoolClient base em deploymentBlock) in
  assigned_depositId <$> run.1 = Some <$> seqZ 0 (Z.of_nat (length calls))
  ∧ numberOfDeposits run.2 = Z.of_nat (length calls).
Proof.
  intros Hunset run.
  destruct (depositV3_calls_from calls
              (new_MockSpokePoolClient base em deploymentBlock) Hunset)
    as [Hids Hcount].
  split; [exact Hids | exact Hcount].
Qed.

(** C4.  A deposit synthesis call that supplies an explicit deposit id
    strictly below the client's number-of-deposits counter fails at once
    with an assertion error naming both values; the client is returned as
    it was, so no event reaches the store and the counter keeps its
    value. *)
Theorem depositV3_rejects_id_below_counter ent deposit c (id : Z) :
  DepositWithBlock.depositId deposit = Some id →
  id < numberOfDeposits c →
  ∃ c',
    depositV3 toBN ent deposit c =
      (inl (AssertionError
              (toString id +:+ " < " +:+ toString (numberOfDeposits c))), c')
    ∧ c' = c
    ∧ stored (eventManager c') = stored (eventManager c)
    ∧ numberOfDeposits c' = numberOfDeposits c.
Proof.
  intros Hid Hlt. exists c. unfold depositV3. rewrite Hid; simpl.
  rewrite bool_decide_eq_false_2 by lia. done.
Qed.

(** ** Fills *)

Lemma fillV3Relay_stored ent fill c :
  stored (eventManager (fillV3Relay ent fill c).2) =
    stored (eventManager c) ++ [(fillV3Relay ent fill c).1].
Proof.
  unfold fillV3Relay, generateEvent. cbv beta iota zeta.
  unfold stored, getEvents.
  cbn [fst snd eventManager set_eventManager em_events].
  by rewrite concat_app.
Qed.

(** The payload of the event a fill call generates. *)
Lemma fillV3Relay_args ent fill c :
  ∃ a,
    args (fillV3Relay ent fill c).1 = Some (FilledV3RelayArgs a)
    ∧ FillArgs.outputToken a =
        default ZERO_ADDRESS (FillWithBlock.outputToken fill)
    ∧ FillArgs.inputAmount a = FillWithBlock.inputAmount fill
    ∧ FillArgs.outputAmount a = FillWithBlock.outputAmount fill
    ∧ FillArgs.relayer a =
        default (rnd_relayer ent) (FillWithBlock.relayer fill)
    ∧ ExecutionInfoArgs.fillType (FillArgs.relayExecutionInfo a) =
        default FastFill
          (FillWithBlock.relayExecutionInfo fill
             ≫= RelayExecutionInfo.fillType)
    ∧ ExecutionInfoArgs.updatedOutputAmount (FillArgs.relayExecutionInfo a) =
        default
          (default
             (default (rnd_inputAmount ent) (FillWithBlock.inputAmount fill))
             (FillWithBlock.outputAmount fill))
          (FillWithBlock.relayExecutionInfo fill
             ≫= RelayExecutionInfo.updatedOutputAmount).
Proof.
  unfold fillV3Relay, generateEvent. cbv beta iota zeta.
  eexists. cbn [fst args p_args]. split; [reflexivity|].
  repeat split.
Qed.

(** C8.  The event synthesized by executing a slow-fill leaf is the one
    appended to the store; the fill type in its relay execution info is
    SlowFill and its relayer is the zero address. *)
Theorem executeV3SlowRelayLeaf_slow_fill_zero_relayer ent
    (leaf : SlowFillLeaf.t) c :
  let run := executeV3SlowRelayLeaf ent leaf c in
  last (stored (eventManager run.2)) = Some run.1
  ∧ ∃ a,
      args run.1 = Some (FilledV3RelayArgs a)
      ∧ event run.1 = "FilledV3Relay"
      ∧ ExecutionInfoArgs.fillType (FillArgs.relayExecutionInfo a) = SlowFill
      ∧ FillArgs.relayer a = ZERO_ADDRESS.
Proof.
  intros run. subst run. unfold executeV3SlowRelayLeaf.
  split.
  - rewrite fillV3Relay_stored. apply last_snoc.
  - match goal with |- context [fillV3Relay ent ?f c] =>
      destruct (fillV3Relay_args ent f c)
        as (a & Hargs & _ & _ & _ & Hrelayer & Htype & _)
    end.
    exists a. split; [exact Hargs|]. split; [reflexivity|].
    split; [exact Htype | exact Hrelayer].
Qed.

(** C10.  For a fill synthesized with the output token unset, the stored
    event's output-token argument is the zero address; the input token
    plays no part in it. *)
Theorem fillV3Relay_unset_output_token_is_zero_address ent
    (fill : FillWithBlock.t) c :
  FillWithBlock.outputToken fill = None →
  let run := fillV3Relay ent fill c in
  last (stored (eventManager run.2)) = Some run.1
  ∧ ∃ a,
      args run.1 = Some (FilledV3RelayArgs a)
      ∧ FillArgs.outputToken a = ZERO_ADDRESS.
Proof.
  intros Hunset run. subst run. split.
  - rewrite fillV3Relay_stored. apply last_snoc.
  - destruct (fillV3Relay_args ent fill c) as (a & Hargs & Htoken & _).
    exists a. split; [exact Hargs|]. by rewrite Htoken, Hunset.
Qed.

(** C7 (fails on the code).  A fill record whose only set property is the
    input amount 1000: the generated event is stored, its output-amount
    argument is undefined rather than 1000; the amount defaulted from the
    input amount only reaches the updated output amount of the relay
    execution info. *)
Theorem fillV3Relay_output_amount_left_unset ent c :
  let fill :=
    FillWithBlock.mk None None None None None None None None None None
      (Some 1000) None None None None None None None in
  let run := fillV3Relay ent fill c in
  last (stored (eventManager run.2)) = Some run.1
  ∧ ∃ a,
      args run.1 = Some (FilledV3RelayArgs a)
      ∧ FillArgs.outputAmount a = None
      ∧ FillArgs.outputAmount a ≠ Some 1000
      ∧ ExecutionInfoArgs.updatedOutputAmount (FillArgs.relayExecutionInfo a)
          = 1000.
Proof.
  intros fill run. subst run. split.
  - rewrite fillV3Relay_stored. apply last_snoc.
  - destruct (fillV3Relay_args ent fill c)
      as (a & Hargs & _ & _ & Hout & _ & _ & Hupd).
    exists a. split; [exact Hargs|]. split; [exact Hout|].
    split; [by rewrite Hout | exact Hupd].
Qed.

(** ** Deposits: the defaulted output amount *)

(** C5 (fails on the code).  A deposit record whose only set property is
    the input amount 1000: the call succeeds, and the output amount of the
    generated event is 1000 times the integer [toBN "0.95"], a multiple of
    1000 and so never 950, whatever [toBN] returns. *)
Theorem depositV3_default_output_amount_is_not_950 ent c :
  let deposit :=
    DepositWithBlock.mk None None None None None None None None (Some 1000)
      None None None None None None None in
  ∃ ev c' a,
    depositV3 toBN ent deposit c = (inr ev, c')
    ∧ last (stored (eventManager c')) = Some ev
    ∧ args ev = Some (V3FundsDepositedArgs a)
    ∧ DepositArgs.inputAmount a = 1000
    ∧ DepositArgs.outputAmount a = 1000 * toBN "0.95"
    ∧ DepositArgs.outputAmount a ≠ 950.
Proof.
  intros deposit. unfold depositV3.
  rewrite bool_decide_eq_true_2 by (simpl; lia).
  unfold generateEvent. cbv beta iota zeta.
  do 3 eexists. split; [reflexivity|]. split.
  { unfold stored, getEvents.
    cbn [eventManager set_eventManager em_events].
    rewrite concat_app. apply last_snoc. }
  split; [reflexivity|]. split; [reflexivity|]. split; [reflexivity|].
  cbn [DepositArgs.outputAmount DepositWithBlock.outputAmount
       DepositWithBlock.inputAmount deposit default from_option].
  unfold id, BigNumber in *. lia.
Qed.

(** ** The deposit-id-at-block table *)

Lemma strictly_increasing_nondecreasing (l : list Z) :
  strictly_increasing l → nondecreasing l.
Proof.
  induction l as [|x [|y l] IH]; simpl; try done.
  intros [Hlt Hrest]. split; [lia | by apply IH].
Qed.

Lemma set_depositIdAtBlock_twice (t t' : list Z) c :
  set_depositIdAtBlock t (set_depositIdAtBlock t' c) =
    set_depositIdAtBlock t c.
Proof. reflexivity. Qed.

Lemma array_write_at_end (x : Z) (a : list Z) :
  array_write (length a) x a = a ++ [x].
Proof. unfold array_write. case_decide; [lia | done]. Qed.

(** The loop on a suffix without a descent: every element is written. *)
Lemma setDepositIds_loop_accepts (rest : list Z) (lastDepositId : Z) c :
  nondecreasing (lastDepositId :: rest) →
  setDepositIds_loop rest (length (depositIdAtBlock c)) lastDepositId c =
    (inr tt, set_depositIdAtBlock (depositIdAtBlock c ++ rest) c).
Proof.
  revert lastDepositId c.
  induction rest as [|x rest IH]; intros lastDepositId c Hsorted.
  - simpl. rewrite app_nil_r. by destruct c.
  - destruct Hsorted as [Hle Hrest]. cbn [setDepositIds_loop].
    rewrite bool_decide_eq_false_2 by lia.
    rewrite array_write_at_end.
    pose proof (IH x (set_depositIdAtBlock (depositIdAtBlock c ++ [x]) c)
                  Hrest) as Hloop.
    cbn [depositIdAtBlock set_depositIdAtBlock] in Hloop.
    rewrite length_app, Nat.add_1_r in Hloop.
    rewrite Hloop, set_depositIdAtBlock_twice.
    by rewrite <-app_assoc.
Qed.

(** The loop on a suffix whose first descent is from [a] to [b]: it throws
    on reaching [b], having written everything up to [a]. *)
Lemma setDepositIds_loop_rejects (pre post : list Z) (a b lastDepositId : Z)
    c :
  nondecreasing (lastDepositId :: pre ++ [a]) →
  b < a →
  setDepositIds_loop (pre ++ a :: b :: post)
    (length (depositIdAtBlock c)) lastDepositId c =
    (inl (Error setDepositIds_error),
     set_depositIdAtBlock (depositIdAtBlock c ++ pre ++ [a]) c).
Proof.
  revert lastDepositId c.
  induction pre as [|x pre IH]; intros lastDepositId c Hsorted Hlt.
  - destruct Hsorted as [Hle _]. cbn [app setDepositIds_loop].
    rewrite bool_decide_eq_false_2 by lia.
    rewrite bool_decide_eq_true_2 by lia.
    by rewrite array_write_at_end.
  - destruct Hsorted as [Hle Hrest]. cbn [app setDepositIds_loop].
    rewrite bool_decide_eq_false_2 by lia.
    rewrite array_write_at_end.
    pose proof (IH x (set_depositIdAtBlock (depositIdAtBlock c ++ [x]) c)
                  Hrest Hlt) as Hloop.
    cbn [depositIdAtBlock set_depositIdAtBlock] in Hloop.
    rewrite length_app, Nat.add_1_r in Hloop.
    rewrite Hloop, set_depositIdAtBlock_twice.
    by rewrite <-app_assoc.
Qed.

(** A sequence with a decreasing adjacent pair splits at its first one. *)
Lemma first_descent (ids : list Z) (i : nat) (x y : Z) :
  ids !! i = Some x → ids !! S i = Some y → y < x →
  ∃ pre a b post,
    ids = pre ++ a :: b :: post ∧ b < a ∧ nondecreasing (pre ++ [a]).
Proof.
  revert i. induction ids as [|h ids IH]; intros i Hx Hy Hlt; [done|].
  destruct ids as [|h' ids]; [done|].
  destruct (decide (h' < h)) as [Hdesc|Hasc].
  - exists [], h, h', ids. by repeat split.
  - destruct i as [|i].
    { simpl in Hx, Hy. simplify_eq. lia. }
    destruct (IH i Hx Hy Hlt) as (pre & a & b & post & Heq & Hba & Hsorted).
    exists (h :: pre), a, b, post. rewrite Heq. repeat split; [done|].
    destruct pre as [|p pre]; simpl in Heq |- *; simplify_eq.
    + split; [lia | done].
    + split; [lia | done].
Qed.

(** C6 (as amended).  [setDepositIds] on a strictly increasing sequence
    succeeds and stores the sequence.  On a sequence with a decreasing
    adjacent pair it throws the error "deposit ID must be equal to or
    greater than previous"; the table then holds the entries up to the
    first descent (a non-empty, non-decreasing proper prefix of the
    sequence) in place of its earlier content. *)
Theorem setDepositIds_validates (_depositIds : list Z) c :
  (strictly_increasing _depositIds →
   setDepositIds _depositIds c =
     (inr tt, set_depositIdAtBlock _depositIds c))
  ∧ (∀ (i : nat) (x y : Z),
       _depositIds !! i = Some x → _depositIds !! S i = Some y → y < x →
       ∃ pre a b post,
         _depositIds = pre ++ a :: b :: post
         ∧ b < a
         ∧ nondecreasing (pre ++ [a])
         ∧ setDepositIds _depositIds c =
             (inl (Error setDepositIds_error),
              set_depositIdAtBlock (pre ++ [a]) c)).
Proof.
  split.
  - intros Hinc%strictly_increasing_nondecreasing.
    unfold setDepositIds. destruct _depositIds as [|first rest]; [done|].
    pose proof (setDepositIds_loop_accepts (first :: rest) first
                  (set_depositIdAtBlock [] c)) as Hloop.
    cbn [depositIdAtBlock set_depositIdAtBlock length app] in Hloop.
    rewrite Hloop; [done|]. split; [lia | done].
  - intros i x y Hx Hy Hlt.
    destruct (first_descent _depositIds i x y Hx Hy Hlt)
      as (pre & a & b & post & Heq & Hba & Hsorted).
    exists pre, a, b, post. repeat split; try done.
    unfold setDepositIds.
    destruct _depositIds as [|first rest] eqn:Hids.
    { by destruct pre. }
    rewrite Heq.
    pose proof (setDepositIds_loop_rejects pre post a b first
                  (set_depositIdAtBlock [] c)) as Hloop.
    cbn [depositIdAtBlock set_depositIdAtBlock length app] in Hloop.
    rewrite Hloop; [done| |done].
    destruct pre as [|p pre]; simpl in Heq; simplify_eq.
    + simpl. split; [lia | done].
    + split; [lia | done].
Qed.

(** ** The update pass *)

Lemma indexOf_Some (l : list string) (x : string) (i : nat) :
  indexOf l x = Some i ↔ l !! i = Some x ∧ x ∉ take i l.
Proof.
  revert i. induction l as [|y l IH]; intros i; simpl.
  - split; [done | by intros [? _]].
  - case_decide as Hyx.
    + subst y. split.
      * intros [= <-]. split; [done | simpl; apply not_elem_of_nil].
      * intros [Hi Hnot]. destruct i as [|i]; [done|].
        exfalso. apply Hnot. simpl. apply elem_of_cons. by left.
    + destruct i as [|i]; simpl.
      * split.
        -- destruct (indexOf l x); done.
        -- intros [[= ->] _]. done.
      * rewrite not_elem_of_cons. split.
        -- destruct (indexOf l x) as [j|] eqn:Hj; simpl; [|done].
           intros Heq. simplify_eq.
           edestruct (proj1 (IH _) eq_refl) as [Hj1 Hj2].
           split; [done|]. split; [congruence | done].
        -- intros [Hi [_ Hnot]].
           by rewrite (proj2 (IH i) (conj Hi Hnot)).
Qed.

Lemma indexOf_None (l : list string) (x : string) :
  indexOf l x = None ↔ x ∉ l.
Proof.
  induction l as [|y l IH]; simpl.
  - split; [intros _; apply not_elem_of_nil | done].
  - rewrite not_elem_of_cons. case_decide as Hyx.
    + split; [done | intros [Hne _]; by subst].
    + destruct (indexOf l x) eqn:Hidx; simpl.
      * split; [done | intros [_ Hnot]]. by apply IH in Hnot.
      * split; [intros _ | done]. split; [done | by apply IH].
Qed.

Lemma indexOf_is_Some (l : list string) (x : string) :
  is_Some (indexOf l x) ↔ x ∈ l.
Proof.
  rewrite <-not_eq_None_Some, indexOf_None. split.
  - apply dec_stable.
  - intros Hin Hnot. by apply Hnot.
Qed.

(** The requested type at position [i] receives the events of that type
    when it is the first occurrence of the type in the request, and
    nothing otherwise. *)
Lemma filter_indexOf (q : list string) (i : nat) (type : string)
    (l : list Event) :
  q !! i = Some type →
  filter (λ ev, indexOf q (event ev) = Some i) l =
    if decide (type ∈ take i q) then [] else spec_bucket type l.
Proof.
  intros Hi. case_decide as Hdup.
  - induction l as [|ev l IH]; [done|].
    rewrite filter_cons_False; [done|].
    rewrite indexOf_Some. intros [Hev Hnot]. by simplify_eq.
  - unfold spec_bucket. apply list_filter_iff. intros ev.
    rewrite indexOf_Some. split.
    + intros [Hev _]. by simplify_eq.
    + intros ->. done.
Qed.

(** The buckets after the pass over [evs]. *)
Lemma update_visit_buckets (q : list string) (evs : list Event)
    (buckets : list (list Event)) (m : gmap Z Block) (i : nat) :
  (foldl (update_visit getBlock q) (buckets, m) evs).1 !! i =
    (λ bucket,
       bucket ++ filter (λ ev, indexOf q (event ev) = Some i) evs)
    <$> buckets !! i.
Proof.
  revert buckets m. induction evs as [|ev evs IH]; intros buckets m.
  - simpl. destruct (buckets !! i); simpl; [|done].
    by rewrite filter_nil, app_nil_r.
  - cbn [foldl]. unfold update_visit at 2.
    destruct (indexOf q (event ev)) as [idx|] eqn:Hidx.
    + cbn [fst snd]. rewrite IH.
      destruct (decide (idx = i)) as [->|Hne].
      * rewrite list_lookup_alter_eq, filter_cons_True by done.
        destruct (buckets !! i); simpl; [|done].
        by rewrite <-app_assoc.
      * rewrite list_lookup_alter_ne by done.
        rewrite filter_cons_False; [done|]. congruence.
    + rewrite IH. rewrite filter_cons_False; [done|]. congruence.
Qed.

Lemma update_visit_length (q : list string) (evs : list Event)
    (buckets : list (list Event)) (m : gmap Z Block) :
  length (foldl (update_visit getBlock q) (buckets, m) evs).1 =
    length buckets.
Proof.
  revert buckets m. induction evs as [|ev evs IH]; intros buckets m.
  - done.
  - cbn [foldl]. unfold update_visit at 2.
    destruct (indexOf q (event ev)) as [idx|].
    + cbn [fst snd]. by rewrite IH, length_alter.
    + apply IH.
Qed.

(** The block map after the pass over [evs]: a block number is bound to
    the metadata of the last matching event of that block. *)
Lemma update_visit_blocks (q : list string) (evs : list Event)
    (buckets : list (list Event)) (m : gmap Z Block) (b : Z) :
  (foldl (update_visit getBlock q) (buckets, m) evs).2 !! b =
    match last (filter (λ ev, blockNumber ev = b)
                  (filter (λ ev, event ev ∈ q) evs)) with
    | Some ev => Some (getBlock ev)
    | None => m !! b
    end.
Proof.
  induction evs as [|ev evs IH] using rev_ind.
  - done.
  - rewrite foldl_app. cbn [foldl]. unfold update_visit at 1.
    rewrite (filter_app (λ ev, event ev ∈ q)).
    destruct (indexOf q (event ev)) as [idx|] eqn:Hidx.
    + assert (event ev ∈ q) as Hin by (apply indexOf_is_Some; eauto).
      rewrite (filter_cons_True (λ ev, event ev ∈ q) ev) by done.
      rewrite filter_nil, filter_app. cbn [snd].
      destruct (decide (blockNumber ev = b)) as [<-|Hne].
      * rewrite lookup_insert_eq.
        rewrite (filter_cons_True _ ev) by done.
        by rewrite filter_nil, last_snoc.
      * rewrite lookup_insert_ne by done.
        rewrite (filter_cons_False _ ev) by done.
        by rewrite filter_nil, app_nil_r.
    + assert (event ev ∉ q) as Hnot by by apply indexOf_None.
      rewrite (filter_cons_False (λ ev, event ev ∈ q) ev) by done.
      by rewrite filter_nil, app_nil_r.
Qed.

(** The three results of [_update] that depend on the pass. *)
Lemma _update_unfold ent (q : list string) c :
  let pass :=
    foldl (update_visit getBlock q) ((λ _, []) <$> q, ∅)
      (stored (eventManager c)) in
  events (_update getBlock ent q c).1 = pass.1
  ∧ (_update getBlock ent q c).2 = set_blocks pass.2 c
  ∧ latestDepositId (_update getBlock ent q c).1 =
      foldl (λ depositId ev, Z.max depositId (depositId_or_zero ev))
        (latestDepositIdQueried c)
        (default [] (indexOf q "V3FundsDeposited" ≫= λ i, pass.1 !! i)).
Proof.
  intros pass. unfold _update. fold (stored (eventManager c)). fold pass.
  by destruct pass.
Qed.

Lemma _update_bucket ent (q : list string) c (i : nat) (type : string) :
  q !! i = Some type →
  events (_update getBlock ent q c).1 !! i =
    Some (if decide (type ∈ take i q) then []
          else spec_bucket type (stored (eventManager c))).
Proof.
  intros Hi. destruct (_update_unfold ent q c) as (-> & _ & _).
  rewrite update_visit_buckets, list_lookup_fmap, Hi. simpl.
  by rewrite (filter_indexOf q i type).
Qed.

(** C2 (as amended).  The snapshot's [events] array has one bucket per
    requested type, never an absent entry.  The bucket at position [i]
    holds exactly the stored events whose type tag is the [i]-th requested
    type, in store order, when that type does not occur earlier in the
    request; at a repeated occurrence of a type the bucket is empty.  A
    requested type without stored events has an empty bucket. *)
Theorem _update_buckets_by_first_occurrence ent (q : list string) c :
  let snapshot := (_update getBlock ent q c).1 in
  length (events snapshot) = length q
  ∧ (∀ (i : nat) (type : string),
       q !! i = Some type →
       events snapshot !! i =
         Some (if decide (type ∈ take i q) then []
               else spec_bucket type (stored (eventManager c))))
  ∧ (∀ (i : nat) (type : string),
       q !! i = Some type →
       spec_bucket type (stored (eventManager c)) = [] →
       events snapshot !! i = Some []).
Proof.
  intros snapshot. subst snapshot. split; [|split].
  - destruct (_update_unfold ent q c) as (-> & _ & _).
    by rewrite update_visit_length, length_fmap.
  - intros i type Hi. by apply _update_bucket.
  - intros i type Hi Hempty. rewrite (_update_bucket ent q c i type Hi).
    rewrite Hempty. by case_decide.
Qed.

(** On a request without repeated types the buckets are the ones the spec
    describes. *)
Lemma _update_buckets_NoDup ent (q : list string) c :
  NoDup q →
  events (_update getBlock ent q c).1 =
    (λ type, spec_bucket type (stored (eventManager c))) <$> q.
Proof.
  intros Hnodup. apply list_eq. intros i. rewrite list_lookup_fmap.
  destruct (q !! i) as [type|] eqn:Hi; simpl.
  - rewrite (_update_bucket ent q c i type Hi).
    rewrite decide_False; [done|].
    intros Hin. apply elem_of_take in Hin as (j & Hj & Hlt).
    assert (j = i) by (eapply NoDup_lookup; eauto). lia.
  - apply lookup_ge_None. destruct (_update_unfold ent q c) as (-> & _ & _).
    rewrite update_visit_length, length_fmap. by apply lookup_ge_None.
Qed.

(** *** The running maximum of the deposit ids *)

Lemma foldr_max_shift (h x : Z) (xs : list Z) :
  foldr Z.max (Z.max h x) xs = Z.max x (foldr Z.max h xs).
Proof. induction xs as [|y xs IH]; simpl; [lia | rewrite IH; lia]. Qed.

Lemma foldl_max_foldr (d : Event → Z) (h : Z) (l : list Event) :
  foldl (λ acc ev, Z.max acc (d ev)) h l = foldr Z.max h (d <$> l).
Proof.
  revert h. induction l as [|ev l IH]; intros h; [done|].
  cbn [foldl]. rewrite IH, fmap_cons. cbn [foldr].
  apply foldr_max_shift.
Qed.

Lemma foldr_max_start (h : Z) (xs : list Z) : h ≤ foldr Z.max h xs.
Proof. induction xs; simpl; lia. Qed.

Lemma foldr_max_elem (h x : Z) (xs : list Z) :
  x ∈ xs → x ≤ foldr Z.max h xs.
Proof.
  induction xs as [|y xs IH]; [by intros ?%elem_of_nil|].
  intros [->|Hin]%elem_of_cons; simpl; [lia|].
  specialize (IH Hin). lia.
Qed.

Lemma foldr_max_least (h bound : Z) (xs : list Z) :
  h ≤ bound → (∀ x, x ∈ xs → x ≤ bound) → foldr Z.max h xs ≤ bound.
Proof.
  intros Hh. induction xs as [|y xs IH]; intros Hall; simpl; [done|].
  apply Z.max_lub.
  - apply Hall, elem_of_cons. by left.
  - apply IH. intros x Hx. apply Hall, elem_of_cons. by right.
Qed.

Lemma foldr_max_attained (h : Z) (xs : list Z) :
  foldr Z.max h xs = h ∨ foldr Z.max h xs ∈ xs.
Proof.
  induction xs as [|y xs IH]; simpl; [by left|].
  destruct (Z.max_spec y (foldr Z.max h xs)) as [[_ ->]|[_ ->]].
  - destruct IH as [->|Hin]; [by left | right].
    apply elem_of_cons. by right.
  - right. apply elem_of_cons. by left.
Qed.

(** [spec_latestDepositId] is the maximum of the high-water mark and the
    ids of the stored deposit events. *)
Lemma spec_latestDepositId_is_maximum (h : Z) (l : list Event) :
  h ≤ spec_latestDepositId h l
  ∧ (∀ ev, ev ∈ l → event ev = "V3FundsDeposited" →
       depositId_or_zero ev ≤ spec_latestDepositId h l)
  ∧ (spec_latestDepositId h l = h
     ∨ ∃ ev, ev ∈ l ∧ event ev = "V3FundsDeposited"
             ∧ spec_latestDepositId h l = depositId_or_zero ev).
Proof.
  unfold spec_latestDepositId, deposit_events. split; [|split].
  - apply foldr_max_start.
  - intros ev Hin Htag. apply foldr_max_elem, list_elem_of_fmap.
    exists ev. split; [done|]. by apply list_elem_of_filter.
  - destruct (foldr_max_attained h
                (depositId_or_zero <$>
                   filter (λ ev, event ev = "V3FundsDeposited") l))
      as [Heq|Hin]; [by left | right].
    apply list_elem_of_fmap in Hin as (ev & Heq & [Htag Hin]%list_elem_of_filter).
    by exists ev.
Qed.

Lemma spec_latestDepositId_mono (h h' : Z) (l l' : list Event) :
  h ≤ h' → l `prefix_of` l' →
  spec_latestDepositId h l ≤ spec_latestDepositId h' l'.
Proof.
  intros Hh [k ->]. unfold spec_latestDepositId.
  apply foldr_max_least.
  - etrans; [exact Hh | apply foldr_max_start].
  - intros x Hx. apply foldr_max_elem.
    apply list_elem_of_fmap in Hx as (ev & -> & Hev).
    apply list_elem_of_fmap. exists ev. split; [done|].
    unfold deposit_events in *. rewrite filter_app.
    apply elem_of_app. by left.
Qed.

Lemma _update_latestDepositId_requested ent (q : list string) c :
  "V3FundsDeposited" ∈ q →
  latestDepositId (_update getBlock ent q c).1 =
    spec_latestDepositId (latestDepositIdQueried c)
      (stored (eventManager c)).
Proof.
  intros Hin. destruct (_update_unfold ent q c) as (_ & _ & ->).
  apply indexOf_is_Some in Hin as [i Hi]. rewrite Hi. cbn [mbind option_bind].
  pose proof Hi as [Hqi Hfirst]%indexOf_Some.
  rewrite update_visit_buckets, list_lookup_fmap, Hqi. simpl.
  rewrite (filter_indexOf q i "V3FundsDeposited") by done.
  rewrite decide_False by done.
  apply foldl_max_foldr.
Qed.

Lemma _update_latestDepositId_not_requested ent (q : list string) c :
  "V3FundsDeposited" ∉ q →
  latestDepositId (_update getBlock ent q c).1 = latestDepositIdQueried c.
Proof.
  intros Hnot. destruct (_update_unfold ent q c) as (_ & _ & ->).
  apply indexOf_None in Hnot. by rewrite Hnot.
Qed.

Lemma _update_latestDepositId_lower_bound ent (q : list string) c :
  latestDepositIdQueried c ≤ latestDepositId (_update getBlock ent q c).1.
Proof.
  destruct (decide ("V3FundsDeposited" ∈ q)) as [Hin|Hnot].
  - rewrite _update_latestDepositId_requested by done.
    apply foldr_max_start.
  - by rewrite _update_latestDepositId_not_requested.
Qed.

(** C3 (as amended).  When the deposit event type is among the requested
    types, the returned [latestDepositId] is the maximum of the recorded
    high-water mark and the deposit ids of all stored deposit events;
    when it is not requested, the high-water mark is returned as it is.
    In both cases the value is at least the high-water mark, and a later
    call that requests the deposit type, on a store that has only grown
    and a high-water mark that has not dropped, returns at least as much,
    whatever ids the events added in between carry. *)
Theorem _update_latestDepositId_running_maximum ent (q : list string) c :
  let snapshot := (_update getBlock ent q c).1 in
  ("V3FundsDeposited" ∈ q →
     latestDepositId snapshot =
       spec_latestDepositId (latestDepositIdQueried c)
         (stored (eventManager c)))
  ∧ ("V3FundsDeposited" ∉ q →
       latestDepositId snapshot = latestDepositIdQueried c)
  ∧ latestDepositIdQueried c ≤ latestDepositId snapshot
  ∧ (∀ ent' (q' : list string) (c' : @Client Block),
       "V3FundsDeposited" ∈ q' →
       latestDepositIdQueried c ≤ latestDepositIdQueried c' →
       stored (eventManager c) `prefix_of` stored (eventManager c') →
       latestDepositId snapshot ≤
         latestDepositId (_update getBlock ent' q' c').1).
Proof.
  intros snapshot. subst snapshot. repeat split.
  - apply _update_latestDepositId_requested.
  - apply _update_latestDepositId_not_requested.
  - apply _update_latestDepositId_lower_bound.
  - intros ent' q' c' Hin' Hmark Hgrown.
    rewrite (_update_latestDepositId_requested ent' q' c') by done.
    destruct (decide ("V3FundsDeposited" ∈ q)) as [Hin|Hnot].
    + rewrite _update_latestDepositId_requested by done.
      by apply spec_latestDepositId_mono.
    + rewrite _update_latestDepositId_not_requested by done.
      etrans; [exact Hmark | apply foldr_max_start].
Qed.

(** *** The frame of the update pass *)

Lemma last_is_Some_elem {A} (l : list A) : is_Some (last l) ↔ ∃ x, x ∈ l.
Proof.
  split.
  - intros [x Hx]. exists x. rewrite last_lookup in Hx.
    by eapply list_elem_of_lookup_2.
  - intros [x Hx]. destruct l as [|y l] using rev_ind.
    + by apply elem_of_nil in Hx.
    + rewrite last_snoc. eauto.
Qed.

(** C9.  [_update] returns the client with its block map replaced and every
    other field as before: the number-of-deposits counter, the
    deposit-id-at-block table, the realized-fee override and the
    destination-token override map keep their values.  The new block map
    is bound exactly at the block numbers of the stored events of a
    requested type, to the metadata of the last such event of the block. *)
Theorem _update_replaces_only_blocks ent (q : list string) c :
  let run := _update getBlock ent q c in
  let matching := filter (λ ev, event ev ∈ q) (stored (eventManager c)) in
  run.2 = set_blocks (blocks run.2) c
  ∧ numberOfDeposits run.2 = numberOfDeposits c
  ∧ depositIdAtBlock run.2 = depositIdAtBlock c
  ∧ realizedLpFeePct run.2 = realizedLpFeePct c
  ∧ realizedLpFeePctOverride run.2 = realizedLpFeePctOverride c
  ∧ destinationTokenForChainOverride run.2 =
      destinationTokenForChainOverride c
  ∧ eventManager run.2 = eventManager c
  ∧ dom (blocks run.2) = list_to_set (blockNumber <$> matching)
  ∧ (∀ b : Z,
       blocks run.2 !! b =
         getBlock <$> last (filter (λ ev, blockNumber ev = b) matching)).
Proof.
  intros run matching. subst run.
  destruct (_update_unfold ent q c) as (_ & Hclient & _).
  rewrite Hclient. cbn [blocks set_blocks].
  assert (∀ b : Z,
    (foldl (update_visit getBlock q) ((λ _, []) <$> q, ∅)
       (stored (eventManager c))).2 !! b =
      getBlock <$> last (filter (λ ev, blockNumber ev = b) matching))
    as Hlookup.
  { intros b. rewrite update_visit_blocks. fold matching.
    destruct (last _); [done | apply lookup_empty]. }
  repeat split; try done.
  apply set_eq. intros b.
  rewrite elem_of_dom, Hlookup, fmap_is_Some, last_is_Some_elem.
  rewrite elem_of_list_to_set, list_elem_of_fmap.
  split.
  - intros (ev & [Hb Hev]%list_elem_of_filter). by exists ev.
  - intros (ev & -> & Hev). exists ev. by apply list_elem_of_filter.
Qed.

End Properties.

(** * The statements on the sample data *)

(** Three deposit calls with unset ids on the fresh sample client. *)
Lemma depositV3_assigns_consecutive_ids_witness :
  let calls :=
    [(sample_entropy, DepositWithBlock.empty);
     (sample_entropy, DepositWithBlock.empty);
     (sample_entropy, DepositWithBlock.empty)] in
  let run := depositV3_calls sample_toBN calls sample_client in
  Forall (λ call, DepositWithBlock.depositId call.2 = None) calls
  ∧ assigned_depositId <$> run.1 = [Some 0; Some 1; Some 2]
  ∧ numberOfDeposits run.2 = 3.
Proof.
  intros calls run.
  assert (Forall (λ call, DepositWithBlock.depositId call.2 = None) calls)
    as Hunset by (repeat constructor).
  split; [exact Hunset|].
  exact (depositV3_assigns_consecutive_ids sample_toBN sample_base
           sample_manager 0 calls Hunset).
Defined.

(** A deposit with the explicit id 3 on a client whose counter is 8. *)
Lemma depositV3_rejects_id_below_counter_witness :
  ∃ c',
    depositV3 sample_toBN sample_entropy (deposit_with_id 3)
      client_after_deposit_7 =
      (inl (AssertionError "3 < 8"), c')
    ∧ c' = client_after_deposit_7
    ∧ stored (eventManager c') = stored (eventManager client_after_deposit_7)
    ∧ numberOfDeposits c' = numberOfDeposits client_after_deposit_7.
Proof.
  apply (depositV3_rejects_id_below_counter sample_toBN sample_entropy
           (deposit_with_id 3) client_after_deposit_7 3).
  - reflexivity.
  - vm_compute. reflexivity.
Defined.

(** A fill with every property unset. *)
Lemma fillV3Relay_unset_output_token_is_zero_address_witness :
  let run := fillV3Relay sample_entropy FillWithBlock.empty sample_client in
  FillWithBlock.outputToken FillWithBlock.empty = None
  ∧ last (stored (eventManager run.2)) = Some run.1
  ∧ ∃ a,
      args run.1 = Some (FilledV3RelayArgs a)
      ∧ FillArgs.outputToken a = ZERO_ADDRESS.
Proof.
  split; [reflexivity|].
  apply (fillV3Relay_unset_output_token_is_zero_address sample_entropy
           FillWithBlock.empty sample_client).
  reflexivity.
Defined.

(** The table set to 1, 2, 5, and the attempt to set it to 1, 2, 1. *)
Lemma setDepositIds_validates_witness :
  strictly_increasing [1; 2; 5]
  ∧ setDepositIds [1; 2; 5] sample_client =
      (inr tt, set_depositIdAtBlock [1; 2; 5] sample_client)
  ∧ ([1; 2; 1] !! 1%nat = Some 2 ∧ [1; 2; 1] !! 2%nat = Some 1 ∧ 1 < 2)
  ∧ ∃ pre a b post,
      [1; 2; 1] = pre ++ a :: b :: post
      ∧ b < a
      ∧ nondecreasing (pre ++ [a])
      ∧ setDepositIds [1; 2; 1] sample_client =
          (inl (Error setDepositIds_error),
           set_depositIdAtBlock (pre ++ [a]) sample_client).
Proof.
  assert (strictly_increasing [1; 2; 5]) as Hinc by (simpl; lia).
  split; [exact Hinc|]. split.
  - exact (proj1 (setDepositIds_validates [1; 2; 5] sample_client) Hinc).
  - split; [repeat split; lia|].
    apply (proj2 (setDepositIds_validates [1; 2; 1] sample_client)
             1%nat 2 1); [reflexivity | reflexivity | lia].
Defined.

(** C6, the claim as stated fails: after the rejected call the table is not
    unset, it holds the two entries written before the descent. *)
Lemma setDepositIds_partial_table_counterexample :
  let run := setDepositIds [1; 2; 1] sample_client in
  depositIdAtBlock sample_client = []
  ∧ run.1 = inl (Error setDepositIds_error)
  ∧ depositIdAtBlock run.2 = [1; 2]
  ∧ depositIdAtBlock run.2 ≠ [].
Proof. vm_compute. repeat split; discriminate. Qed.

(** A request that repeats the fill type after the deposit type, on the
    store holding one deposit. *)
Lemma _update_buckets_by_first_occurrence_witness :
  let q := ["V3FundsDeposited"; "FilledV3Relay"; "V3FundsDeposited"] in
  let c := client_after_deposit_7 in
  let snapshot := (_update sample_getBlock sample_entropy q c).1 in
  q !! 0%nat = Some "V3FundsDeposited"
  ∧ events snapshot !! 0%nat =
      Some (spec_bucket "V3FundsDeposited" (stored (eventManager c)))
  ∧ q !! 1%nat = Some "FilledV3Relay"
  ∧ spec_bucket "FilledV3Relay" (stored (eventManager c)) = []
  ∧ events snapshot !! 1%nat = Some []
  ∧ length (events snapshot) = 3%nat.
Proof.
  intros q c snapshot.
  pose proof (_update_buckets_by_first_occurrence sample_getBlock
                sample_entropy q c) as (Hlen & Hbucket & Hempty).
  split; [reflexivity|]. split.
  - exact (Hbucket 0%nat "V3FundsDeposited" eq_refl).
  - split; [reflexivity|]. split; [reflexivity|]. split.
    + exact (Hempty 1%nat "FilledV3Relay" eq_refl eq_refl).
    + exact Hlen.
Defined.

(** C2, the claim as stated fails: with the fill type requested twice, the
    second bucket is empty although the store holds a fill event. *)
Lemma _update_repeated_type_counterexample :
  let q := ["FilledV3Relay"; "FilledV3Relay"] in
  let c := client_after_fill in
  let snapshot := (_update sample_getBlock sample_entropy q c).1 in
  q !! 1%nat = Some "FilledV3Relay"
  ∧ length (spec_bucket "FilledV3Relay" (stored (eventManager c))) = 1%nat
  ∧ events snapshot !! 1%nat = Some []
  ∧ events snapshot !! 1%nat ≠
      Some (spec_bucket "FilledV3Relay" (stored (eventManager c))).
Proof. vm_compute. repeat split; discriminate. Qed.

(** Two successive calls that request the deposit type, the store growing
    by a fill in between. *)
Lemma _update_latestDepositId_running_maximum_witness :
  let q := ["FilledV3Relay"; "V3FundsDeposited"] in
  let c := client_after_deposit_7 in
  let c' := (fillV3Relay sample_entropy FillWithBlock.empty c).2 in
  let snapshot := (_update sample_getBlock sample_entropy q c).1 in
  "V3FundsDeposited" ∈ q
  ∧ latestDepositId snapshot =
      spec_latestDepositId (latestDepositIdQueried c) (stored (eventManager c))
  ∧ ("V3FundsDeposited" ∉ ["FilledV3Relay"])
  ∧ latestDepositId
      (_update sample_getBlock sample_entropy ["FilledV3Relay"] c).1 =
      latestDepositIdQueried c
  ∧ latestDepositId snapshot ≤
      latestDepositId (_update sample_getBlock sample_entropy q c').1.
Proof.
  intros q c c' snapshot.
  assert ("V3FundsDeposited" ∈ q) as Hin by compute_done.
  assert ("V3FundsDeposited" ∉ ["FilledV3Relay"]) as Hnot
    by compute_done.
  pose proof (_update_latestDepositId_running_maximum sample_getBlock
                sample_entropy q c) as (Hmax & _ & _ & Hlater).
  pose proof (_update_latestDepositId_running_maximum sample_getBlock
                sample_entropy ["FilledV3Relay"] c) as (_ & Hmark & _ & _).
  split; [exact Hin|]. split; [exact (Hmax Hin)|].
  split; [exact Hnot|]. split; [exact (Hmark Hnot)|].
  apply (Hlater sample_entropy q c' Hin).
  - reflexivity.
  - unfold c'. rewrite fillV3Relay_stored. by apply prefix_app_r.
Defined.

(** C3, the claim as stated fails: the store holds a deposit with id 7, the
    high-water mark is 0, and a call that does not request the deposit type
    returns 0, not the maximum 7. *)
Lemma _update_unrequested_deposit_counterexample :
  let c := client_after_deposit_7 in
  let snapshot :=
    (_update sample_getBlock sample_entropy ["FilledV3Relay"] c).1 in
  latestDepositIdQueried c = 0
  ∧ spec_latestDepositId (latestDepositIdQueried c) (stored (eventManager c))
      = 7
  ∧ latestDepositId snapshot = 0
  ∧ latestDepositId snapshot ≠
      spec_latestDepositId (latestDepositIdQueried c)
        (stored (eventManager c)).
Proof. vm_compute. repeat split; discriminate. Qed.

(** * Further properties of the client *)

Section FurtherProperties.

Context {Block : Type}.
Variable getBlock : Event → Block.
Variable toBN : string → BigNumber.
Variable super_computeRealizedLpFeePct :
  @Client Block → Event → RealizedLpFee.t.
Variable super_batchComputeRealizedLpFeePct :
  @Client Block → list Event → list RealizedLpFee.t.
Variable super_getDestinationTokenForDeposit :
  @Client Block → DepositWithBlock.t → Address.

Implicit Types (c : @Client Block) (ent : Entropy).

Local Set Default Proof Using "Type".

(** ** The override layer *)

(** X1.  Once a default realized fee is set, the fee of every deposit event,
    computed alone or in a batch, is that fee quoted at the event's own
    block, whatever the inherited computation would give; a fee set later
    replaces it.  Clearing the override hands both computations back to the
    inherited ones; it drops the flag only, the fee stays stored. *)
Theorem realizedLpFeePct_override_lifecycle (fee fee' : BigNumber)
    (depositEvent : Event) (depositEvents : list Event) c :
  let overridden := setDefaultRealizedLpFeePct fee c in
  let cleared := clearDefaultRealizedLpFeePct overridden in
  computeRealizedLpFeePct super_computeRealizedLpFeePct depositEvent
    overridden =
    {| RealizedLpFee.realizedLpFeePct := fee;
       RealizedLpFee.quoteBlock := blockNumber depositEvent |}
  ∧ batchComputeRealizedLpFeePct super_batchComputeRealizedLpFeePct
      depositEvents overridden =
      (λ ev, {| RealizedLpFee.realizedLpFeePct := fee;
                RealizedLpFee.quoteBlock := blockNumber ev |})
        <$> depositEvents
  ∧ computeRealizedLpFeePct super_computeRealizedLpFeePct depositEvent
      (setDefaultRealizedLpFeePct fee' overridden) =
      {| RealizedLpFee.realizedLpFeePct := fee';
         RealizedLpFee.quoteBlock := blockNumber depositEvent |}
  ∧ computeRealizedLpFeePct super_computeRealizedLpFeePct depositEvent
      cleared =
      super_computeRealizedLpFeePct cleared depositEvent
  ∧ batchComputeRealizedLpFeePct super_batchComputeRealizedLpFeePct
      depositEvents cleared =
      super_batchComputeRealizedLpFeePct cleared depositEvents
  ∧ realizedLpFeePct cleared = fee
  ∧ realizedLpFeePctOverride cleared = false.
Proof.
  intros overridden cleared. subst overridden cleared.
  unfold computeRealizedLpFeePct, batchComputeRealizedLpFeePct.
  unfold clearDefaultRealizedLpFeePct, setDefaultRealizedLpFeePct.
  cbn [realizedLpFeePctOverride realizedLpFeePct
       set_realizedLpFeePctOverride set_realizedLpFeePct].
  repeat split.
Qed.

(** X2.  While the override is active, the batched computation answers
    event by event what the single computation answers: one result per
    event, in order. *)
Theorem batchComputeRealizedLpFeePct_pointwise (depositEvents : list Event) c :
  realizedLpFeePctOverride c = true →
  batchComputeRealizedLpFeePct super_batchComputeRealizedLpFeePct depositEvents c = (λ ev, computeRealizedLpFeePct super_computeRealizedLpFeePct ev c) <$> depositEvents
  ∧ length (batchComputeRealizedLpFeePct super_batchComputeRealizedLpFeePct depositEvents c) = length depositEvents.
Proof.
  intros Hon. unfold batchComputeRealizedLpFeePct, computeRealizedLpFeePct.
  rewrite Hon. split; [done | by rewrite length_fmap].
Qed.

(** X4.  A destination token set for a chain answers every deposit that
    originates on that chain; deposits from another chain, or without an
    origin chain, are answered as before the call (by the override they
    had, else by the inherited method); a second token for the same chain
    replaces the first. *)
Theorem getDestinationTokenForDeposit_after_set (chain : Z)
    (token token' : Address) (deposit : DepositWithBlock.t) c :
  let c' := setDestinationTokenForChain chain token c in
  (DepositWithBlock.originChainId deposit = Some chain →
   getDestinationTokenForDeposit super_getDestinationTokenForDeposit
     deposit c' = token)
  ∧ (∀ other : Z,
       DepositWithBlock.originChainId deposit = Some other → other ≠ chain →
       getDestinationTokenForDeposit super_getDestinationTokenForDeposit
     deposit c' =
         default (super_getDestinationTokenForDeposit c' deposit)
           (destinationTokenForChainOverride c !! other))
  ∧ (DepositWithBlock.originChainId deposit = None →
     getDestinationTokenForDeposit super_getDestinationTokenForDeposit
     deposit c' =
       super_getDestinationTokenForDeposit c' deposit)
  ∧ setDestinationTokenForChain chain token' c' =
      setDestinationTokenForChain chain token' c.
Proof.
  intros c'. subst c'. unfold getDestinationTokenForDeposit.
  repeat split.
  - intros ->. cbn [mbind option_bind destinationTokenForChainOverride
                    setDestinationTokenForChain
                    set_destinationTokenForChainOverride].
    by rewrite lookup_insert_eq.
  - intros other -> Hne.
    cbn [mbind option_bind destinationTokenForChainOverride
         setDestinationTokenForChain set_destinationTokenForChainOverride].
    by rewrite lookup_insert_ne.
  - by intros ->.
  - unfold setDestinationTokenForChain, set_destinationTokenForChainOverride.
    cbn [destinationTokenForChainOverride]. by rewrite insert_insert_eq.
Qed.

(** ** The deposit-id-at-block table, continued *)

Lemma setDepositIds_loop_outcome (rest : list Z) (i : nat)
    (lastDepositId : Z) c :
  (setDepositIds_loop rest i lastDepositId c).1 = inr tt
  ↔ nondecreasing (lastDepositId :: rest).
Proof.
  revert i lastDepositId c.
  induction rest as [|x rest IH]; intros i lastDepositId c.
  - done.
  - cbn [setDepositIds_loop]. case_bool_decide as Hlt.
    + simpl. split; [done | intros [Hle _]; lia].
    + rewrite IH. cbn [nondecreasing].
      split; [intros ?; split; [lia | done] | by intros [_ ?]].
Qed.

(** The table the loop leaves: what it held, then an accepted prefix of the
    remaining elements. *)
Lemma setDepositIds_loop_table (rest : list Z) (lastDepositId : Z) c :
  ∃ written,
    (setDepositIds_loop rest (length (depositIdAtBlock c)) lastDepositId c).2 =
      set_depositIdAtBlock (depositIdAtBlock c ++ written) c
    ∧ written `prefix_of` rest
    ∧ nondecreasing (lastDepositId :: written).
Proof.
  revert lastDepositId c.
  induction rest as [|x rest IH]; intros lastDepositId c.
  - exists []. rewrite app_nil_r. split; [by destruct c | done].
  - cbn [setDepositIds_loop]. case_bool_decide as Hlt.
    + exists []. rewrite app_nil_r.
      split; [by destruct c|]. split; [apply prefix_nil | done].
    + rewrite array_write_at_end.
      destruct (IH x (set_depositIdAtBlock (depositIdAtBlock c ++ [x]) c))
        as (written & Htable & Hprefix & Hsorted).
      cbn [depositIdAtBlock set_depositIdAtBlock] in Htable.
      rewrite length_app, Nat.add_1_r in Htable.
      exists (x :: written). split; [|split].
      * rewrite Htable, set_depositIdAtBlock_twice. by rewrite <-app_assoc.
      * by apply prefix_cons.
      * split; [lia | done].
Qed.

Lemma setDepositIds_nondecreasing (_depositIds : list Z) c :
  nondecreasing _depositIds →
  setDepositIds _depositIds c = (inr tt, set_depositIdAtBlock _depositIds c).
Proof.
  intros Hsorted. unfold setDepositIds.
  destruct _depositIds as [|first rest]; [done|].
  pose proof (setDepositIds_loop_accepts (first :: rest) first
                (set_depositIdAtBlock [] c)) as Hloop.
  cbn [depositIdAtBlock set_depositIdAtBlock length app] in Hloop.
  rewrite Hloop; [done|]. split; [lia | done].
Qed.

Lemma setDepositIds_table (_depositIds : list Z) c :
  ∃ written,
    (setDepositIds _depositIds c).2 = set_depositIdAtBlock written c
    ∧ written `prefix_of` _depositIds
    ∧ nondecreasing written.
Proof.
  unfold setDepositIds. destruct _depositIds as [|first rest].
  - by exists [].
  - destruct (setDepositIds_loop_table (first :: rest) first
                (set_depositIdAtBlock [] c))
      as (written & Htable & Hprefix & Hsorted).
    cbn [depositIdAtBlock set_depositIdAtBlock length app] in Htable.
    exists written. split; [exact Htable|]. split; [done|].
    destruct written; [done | by destruct Hsorted].
Qed.

(** X5.  [setDepositIds] succeeds exactly on the sequences without a
    decreasing adjacent pair (equal neighbours, the empty and the
    one-element sequence included), and then the table is the sequence. *)
Theorem setDepositIds_succeeds_iff_nondecreasing (_depositIds : list Z) c :
  ((setDepositIds _depositIds c).1 = inr tt ↔ nondecreasing _depositIds)
  ∧ (nondecreasing _depositIds →
     setDepositIds _depositIds c =
       (inr tt, set_depositIdAtBlock _depositIds c)).
Proof.
  split; [|apply setDepositIds_nondecreasing].
  unfold setDepositIds. destruct _depositIds as [|first rest]; [done|].
  rewrite setDepositIds_loop_outcome. cbn [nondecreasing].
  split; [by intros [_ ?] | intros ?; split; [lia | done]].
Qed.

(** X6.  After a successful [setDepositIds], [_getDepositIdAtBlock] reads
    back the entry of the sequence at the block tag, and is undefined at
    every tag beyond the sequence. *)
Theorem _getDepositIdAtBlock_after_setDepositIds (_depositIds : list Z)
    (blockTag : nat) c :
  nondecreasing _depositIds →
  _getDepositIdAtBlock blockTag (setDepositIds _depositIds c).2 =
    _depositIds !! blockTag
  ∧ ((length _depositIds ≤ blockTag)%nat →
     _getDepositIdAtBlock blockTag (setDepositIds _depositIds c).2 = None).
Proof.
  intros Hsorted. rewrite setDepositIds_nondecreasing by done.
  unfold _getDepositIdAtBlock. cbn [snd depositIdAtBlock set_depositIdAtBlock].
  split; [done | apply lookup_ge_None_2].
Qed.

(** X7.  Whatever its argument and its outcome, [setDepositIds] changes no
    field but the table, the table it leaves is a non-decreasing prefix of
    the argument, and nothing of the table held before survives: the call
    on a client whose table was set earlier gives what it gives on the
    client itself. *)
Theorem setDepositIds_frame (_depositIds earlier : list Z) c :
  (∃ written,
     (setDepositIds _depositIds c).2 = set_depositIdAtBlock written c
     ∧ written `prefix_of` _depositIds
     ∧ nondecreasing written)
  ∧ setDepositIds _depositIds (setDepositIds earlier c).2 =
      setDepositIds _depositIds c.
Proof.
  split; [apply setDepositIds_table|].
  destruct (setDepositIds_table earlier c) as (written & -> & _).
  reflexivity.
Qed.

(** ** Deposits, continued *)

(** The event and the client a deposit call leaves when its id passes the
    assertion. *)
Lemma depositV3_success ent (deposit : DepositWithBlock.t) c :
  let id :=
    default (numberOfDeposits c) (DepositWithBlock.depositId deposit) in
  numberOfDeposits c ≤ id →
  ∃ ev em a,
    depositV3 toBN ent deposit c =
      (inr ev, set_eventManager em (set_numberOfDeposits (id + 1) c))
    ∧ stored em = stored (eventManager c) ++ [ev]
    ∧ event ev = "V3FundsDeposited"
    ∧ args ev = Some (V3FundsDepositedArgs a)
    ∧ topics ev =
        [toString (DepositArgs.destinationChainId a);
         toString (DepositArgs.depositId a); DepositArgs.depositor a]
    ∧ DepositArgs.depositId a = id
    ∧ DepositArgs.originChainId a =
        default (chainId c) (DepositWithBlock.originChainId deposit)
    ∧ DepositArgs.destinationChainId a =
        default (rnd_chainId ent) (DepositWithBlock.destinationChainId deposit)
    ∧ DepositArgs.depositor a =
        default (rnd_depositor ent) (DepositWithBlock.depositor deposit)
    ∧ DepositArgs.recipient a =
        default (DepositArgs.depositor a) (DepositWithBlock.recipient deposit)
    ∧ DepositArgs.inputToken a =
        default (rnd_inputToken ent) (DepositWithBlock.inputToken deposit)
    ∧ DepositArgs.inputAmount a =
        default (rnd_inputAmount ent) (DepositWithBlock.inputAmount deposit)
    ∧ DepositArgs.outputToken a =
        default (DepositArgs.inputToken a)
          (DepositWithBlock.outputToken deposit)
    ∧ DepositArgs.quoteTimestamp a =
        default (now ent) (DepositWithBlock.quoteTimestamp deposit)
    ∧ DepositArgs.fillDeadline a =
        default (DepositArgs.quoteTimestamp a + 3600)
          (DepositWithBlock.fillDeadline deposit)
    ∧ DepositArgs.exclusiveRelayer a =
        default ZERO_ADDRESS (DepositWithBlock.exclusiveRelayer deposit)
    ∧ DepositArgs.exclusivityDeadline a =
        default (DepositArgs.quoteTimestamp a + 600)
          (DepositWithBlock.exclusivityDeadline deposit).
Proof.
  intros id Hge. unfold depositV3. fold id.
  rewrite bool_decide_eq_true_2 by lia.
  unfold generateEvent. cbv beta iota zeta.
  eexists _, _, _. split; [reflexivity|]. split.
  { unfold stored, getEvents. cbn [em_events]. by rewrite concat_app. }
  repeat split.
Qed.

(** One deposit call, whatever its outcome. *)
Lemma depositV3_step ent (deposit : DepositWithBlock.t) c :
  (∃ ev em id,
     depositV3 toBN ent deposit c =
       (inr ev, set_eventManager em (set_numberOfDeposits (id + 1) c))
     ∧ numberOfDeposits c ≤ id
     ∧ stored em = stored (eventManager c) ++ [ev]
     ∧ event ev = "V3FundsDeposited"
     ∧ args ev ≫= args_depositId = Some id)
  ∨ (∃ err, depositV3 toBN ent deposit c = (inl err, c)).
Proof.
  destruct (decide (numberOfDeposits c ≤
              default (numberOfDeposits c)
                (DepositWithBlock.depositId deposit))) as [Hge|Hlt].
  - left.
    destruct (depositV3_success ent deposit c Hge)
      as (ev & em & a & Hrun & Hstored & Htag & Hargs & _ & Hid & _).
    eexists ev, em, _. split; [exact Hrun|]. split; [exact Hge|].
    split; [exact Hstored|]. split; [exact Htag|].
    rewrite Hargs. simpl. by rewrite Hid.
  - right. unfold depositV3. rewrite bool_decide_eq_false_2 by lia. eauto.
Qed.





(** *** Sequences of deposit calls *)

Lemma strictly_increasing_cons (x : Z) (l : list Z) :
  Forall (λ i, x < i) l → strictly_increasing l →
  strictly_increasing (x :: l).
Proof.
  destruct l as [|y l]; [done|].
  intros Hall Hinc. split; [|done]. by inversion Hall.
Qed.

(** Everything a run of deposit calls keeps, by induction on the calls. *)
Lemma depositV3_calls_run (calls : list (Entropy * DepositWithBlock.t)) c :
  let run := depositV3_calls toBN calls c in
  let ids := omap assigned_depositId run.1 in
  strictly_increasing ids
  ∧ Forall (λ i, numberOfDeposits c ≤ i < numberOfDeposits run.2) ids
  ∧ numberOfDeposits c ≤ numberOfDeposits run.2
  ∧ stored (eventManager run.2) =
      stored (eventManager c) ++ generated_events run.1
  ∧ (∃ n em, run.2 = set_eventManager em (set_numberOfDeposits n c))
  ∧ Forall (λ ev, event ev = "V3FundsDeposited"
                  ∧ numberOfDeposits c ≤ depositId_or_zero ev
                      < numberOfDeposits run.2)
      (generated_events run.1)
  ∧ length run.1 = length calls.
Proof.
  revert c. induction calls as [|[ent deposit] calls IH]; intros c.
  - simpl. unfold generated_events. simpl. rewrite app_nil_r.
    repeat split; try done; try lia.
    exists (numberOfDeposits c), (eventManager c). by destruct c.
  - cbn [depositV3_calls].
    destruct (depositV3_step ent deposit c)
      as [(ev & em & id & Hrun & Hge & Hstored & Htag & Hid)|(err & Hrun)];
      rewrite Hrun.
    + specialize (IH (set_eventManager em (set_numberOfDeposits (id + 1) c))).
      destruct (depositV3_calls toBN calls _) as [rs c2].
      cbn [fst snd numberOfDeposits set_eventManager set_numberOfDeposits
           eventManager] in IH |- *.
      destruct IH as (Hinc & Hbounds & Hle & Hstore & (n & em2 & Hframe)
                      & Hevents & Hlen).
      unfold generated_events in *. cbn [omap list_omap assigned_depositId].
      rewrite Hid.
      split; [|split; [|split; [|split; [|split; [|split]]]]].
      * apply strictly_increasing_cons; [|done].
        eapply Forall_impl; [exact Hbounds|]. simpl. lia.
      * constructor; [lia|].
        eapply Forall_impl; [exact Hbounds|]. simpl. lia.
      * lia.
      * rewrite Hstore, Hstored. by rewrite <-app_assoc.
      * exists n, em2. by rewrite Hframe.
      * constructor.
        -- split; [done|]. unfold depositId_or_zero. rewrite Hid. simpl. lia.
        -- eapply Forall_impl; [exact Hevents|]. simpl. intros ? [? ?].
           split; [done | lia].
      * simpl. by rewrite Hlen.
    + specialize (IH c).
      destruct (depositV3_calls toBN calls c) as [rs c2].
      cbn [fst snd] in IH |- *.
      destruct IH as (Hinc & Hbounds & Hle & Hstore & Hframe & Hevents & Hlen).
      unfold generated_events in *. cbn [omap list_omap assigned_depositId].
      repeat split; try done. simpl. by rewrite Hlen.
Qed.


(** X12.  A sequence of deposit calls appends to the store exactly the
    events its successful calls returned, in call order, each tagged
    V3FundsDeposited, and nothing for a failed call; apart from the store
    and the counter the client is as before. *)
Theorem depositV3_calls_append_generated_events
    (calls : list (Entropy * DepositWithBlock.t)) c :
  let run := depositV3_calls toBN calls c in
  stored (eventManager run.2) =
    stored (eventManager c) ++ generated_events run.1
  ∧ Forall (λ ev, event ev = "V3FundsDeposited") (generated_events run.1)
  ∧ length run.1 = length calls
  ∧ ∃ n em, run.2 = set_eventManager em (set_numberOfDeposits n c).
Proof.
  destruct (depositV3_calls_run calls c)
    as (_ & _ & _ & Hstore & Hframe & Hevents & Hlen).
  split; [exact Hstore|]. split; [|by split].
  eapply Forall_impl; [exact Hevents|]. by intros ? [? _].
Qed.



(** ** Fills, continued *)

(** The event and the client a fill call leaves. *)
Lemma fillV3Relay_success ent (fill : FillWithBlock.t) c :
  ∃ ev em a,
    fillV3Relay ent fill c = (ev, set_eventManager em c)
    ∧ stored em = stored (eventManager c) ++ [ev]
    ∧ event ev = "FilledV3Relay"
    ∧ args ev = Some (FilledV3RelayArgs a)
    ∧ topics ev =
        [toString (FillArgs.originChainId a); toString (FillArgs.depositId a);
         FillArgs.relayer a]
    ∧ FillArgs.relayer a =
        default (rnd_relayer ent) (FillWithBlock.relayer fill)
    ∧ FillArgs.repaymentChainId a =
        default (chainId c) (FillWithBlock.repaymentChainId fill)
    ∧ FillArgs.fillDeadline a =
        default (now ent + 60) (FillWithBlock.fillDeadline fill)
    ∧ FillArgs.exclusivityDeadline a =
        default (FillArgs.fillDeadline a)
          (FillWithBlock.exclusivityDeadline fill)
    ∧ FillArgs.recipient a =
        default (rnd_recipient ent) (FillWithBlock.recipient fill)
    ∧ ExecutionInfoArgs.updatedRecipient (FillArgs.relayExecutionInfo a) =
        default (FillArgs.recipient a)
          (FillWithBlock.relayExecutionInfo fill
             ≫= RelayExecutionInfo.updatedRecipient)
    ∧ ExecutionInfoArgs.updatedMessage (FillArgs.relayExecutionInfo a) =
        default (FillArgs.message a)
          (FillWithBlock.relayExecutionInfo fill
             ≫= RelayExecutionInfo.updatedMessage)
    ∧ ExecutionInfoArgs.updatedOutputAmount (FillArgs.relayExecutionInfo a) =
        default
          (default
             (default (rnd_inputAmount ent) (FillWithBlock.inputAmount fill))
             (FillWithBlock.outputAmount fill))
          (FillWithBlock.relayExecutionInfo fill
             ≫= RelayExecutionInfo.updatedOutputAmount)
    ∧ ExecutionInfoArgs.fillType (FillArgs.relayExecutionInfo a) =
        default FastFill
          (FillWithBlock.relayExecutionInfo fill
             ≫= RelayExecutionInfo.fillType)
    ∧ (∀ message : string,
         FillWithBlock.message fill = Some message →
         FillArgs.message a = message).
Proof.
  unfold fillV3Relay, generateEvent. cbv beta iota zeta.
  eexists _, _, _. split; [reflexivity|]. split.
  { unfold stored, getEvents. cbn [em_events]. by rewrite concat_app. }
  repeat split. cbn [FillArgs.message]. by intros message ->.
Qed.

(** X14.  A fill synthesized without relay execution info is a fast fill
    whose execution info repeats the fill itself: the updated recipient is
    the recipient and the updated message the message of the payload, drawn
    or supplied, and the updated output amount is the supplied output
    amount, else the supplied input amount.  With the deadlines unset, the
    exclusivity deadline is the fill deadline, 60 seconds after the current
    time; an unset repayment chain is the client's chain. *)
Theorem fillV3Relay_derived_defaults ent (fill : FillWithBlock.t) c :
  ∃ a,
    fill_args (fillV3Relay ent fill c).1 = Some a
    ∧ (FillWithBlock.relayExecutionInfo fill = None →
       ExecutionInfoArgs.fillType (FillArgs.relayExecutionInfo a) = FastFill
       ∧ ExecutionInfoArgs.updatedRecipient (FillArgs.relayExecutionInfo a) =
           FillArgs.recipient a
       ∧ ExecutionInfoArgs.updatedMessage (FillArgs.relayExecutionInfo a) =
           FillArgs.message a
       ∧ (∀ amount : BigNumber,
            FillWithBlock.outputAmount fill = Some amount →
            ExecutionInfoArgs.updatedOutputAmount
              (FillArgs.relayExecutionInfo a) = amount)
       ∧ (∀ amount : BigNumber,
            FillWithBlock.outputAmount fill = None →
            FillWithBlock.inputAmount fill = Some amount →
            ExecutionInfoArgs.updatedOutputAmount
              (FillArgs.relayExecutionInfo a) = amount))
    ∧ (FillWithBlock.fillDeadline fill = None →
       FillWithBlock.exclusivityDeadline fill = None →
       FillArgs.fillDeadline a = now ent + 60
       ∧ FillArgs.exclusivityDeadline a = FillArgs.fillDeadline a)
    ∧ (FillWithBlock.repaymentChainId fill = None →
       FillArgs.repaymentChainId a = chainId c).
Proof.
  destruct (fillV3Relay_success ent fill c)
    as (ev & em & a & Hrun & _ & _ & Hargs & _ & _ & Hrepay & Hfill & Hexcl
        & _ & Hrcp & Hmsg & Hamount & Htype & _).
  exists a. rewrite Hrun. cbn [fst].
  split; [by unfold fill_args; rewrite Hargs|].
  split; [|split].
  - intros Hinfo. rewrite Hinfo in Hrcp, Hmsg, Hamount, Htype.
    simpl in Hrcp, Hmsg, Hamount, Htype.
    split; [done|]. split; [done|]. split; [done|]. split.
    + intros amount Hout. by rewrite Hamount, Hout.
    + intros amount Hout Hin. by rewrite Hamount, Hout, Hin.
  - intros Hf He. rewrite Hf in Hfill. rewrite He in Hexcl. by split.
  - intros Hr. by rewrite Hrepay, Hr.
Qed.

(** X15.  Executing a slow-fill leaf ignores the relayer, the repayment
    chain and the execution info its relay data may carry: the repayment
    chain of the synthesized fill is 0, not the client's chain, the third
    topic is the zero address, the updated recipient and message are the
    recipient and message of the payload, and the updated output amount is
    the leaf's when the leaf has one. *)
Theorem executeV3SlowRelayLeaf_overrides_relay_data ent
    (leaf : SlowFillLeaf.t) c :
  ∃ a,
    fill_args (executeV3SlowRelayLeaf ent leaf c).1 = Some a
    ∧ FillArgs.repaymentChainId a = 0
    ∧ topics (executeV3SlowRelayLeaf ent leaf c).1 !! 2%nat =
        Some ZERO_ADDRESS
    ∧ ExecutionInfoArgs.updatedRecipient (FillArgs.relayExecutionInfo a) =
        FillArgs.recipient a
    ∧ ExecutionInfoArgs.updatedMessage (FillArgs.relayExecutionInfo a) =
        FillArgs.message a
    ∧ (∀ amount : BigNumber,
         SlowFillLeaf.updatedOutputAmount leaf = Some amount →
         ExecutionInfoArgs.updatedOutputAmount (FillArgs.relayExecutionInfo a)
           = amount).
Proof.
  unfold executeV3SlowRelayLeaf.
  match goal with |- context [fillV3Relay ent ?f c] =>
    destruct (fillV3Relay_success ent f c)
      as (ev & em & a & Hrun & _ & _ & Hargs & Htopics & Hrelayer & Hrepay
          & _ & _ & Hrecipient & Hrcp & Hmsg & Hamount & _ & Hmessage)
  end.
  exists a. rewrite Hrun. cbn [fst].
  cbn [FillWithBlock.relayer FillWithBlock.repaymentChainId
       FillWithBlock.recipient FillWithBlock.relayExecutionInfo
       FillWithBlock.message mbind option_bind
       RelayExecutionInfo.updatedRecipient RelayExecutionInfo.updatedMessage
       RelayExecutionInfo.updatedOutputAmount default from_option]
    in Hrelayer, Hrepay, Hrecipient, Hrcp, Hmsg, Hamount.
  split; [by unfold fill_args; rewrite Hargs|].
  split; [exact Hrepay|].
  split; [by rewrite Htopics, Hrelayer|].
  split.
  { rewrite Hrcp, Hrecipient.
    by destruct (FillWithBlock.recipient (SlowFillLeaf.relayData leaf)). }
  split.
  { rewrite Hmsg.
    destruct (FillWithBlock.message (SlowFillLeaf.relayData leaf))
      as [message|] eqn:Hm; [|done].
    simpl. symmetry. by apply Hmessage. }
  intros amount Hleaf. by rewrite Hamount, Hleaf.
Qed.

(** ** The other synthesizers *)

Lemma generateEvent_appends ent (p : EventGeneratorParams) c :
  appends_only c
    ((generateEvent ent p (eventManager c)).1,
     set_eventManager (generateEvent ent p (eventManager c)).2 c)
    (p_event p).
Proof.
  eexists. split; [reflexivity|]. split; [|reflexivity].
  unfold generateEvent, stored, getEvents. cbn [snd fst em_events].
  by rewrite concat_app.
Qed.

(** X16.  Fills, slow-fill leaf executions, speed-ups, slow-fill requests
    and route enablements each append exactly one event of their own type
    to the store and change nothing else of the client; the
    number-of-deposits counter in particular only ever moves in
    [depositV3]. *)
Theorem synthesizers_append_one_event ent c (fill : FillWithBlock.t)
    (leaf : SlowFillLeaf.t) (speedUp : SpeedUp.t)
    (request : SlowFillRequestWithBlock.t) (originToken : Address)
    (destinationChainId : Z) (enabled : bool) (blockNumber : option Z) :
  appends_only c (fillV3Relay ent fill c) "FilledV3Relay"
  ∧ appends_only c (executeV3SlowRelayLeaf ent leaf c) "FilledV3Relay"
  ∧ appends_only c (speedUpV3Deposit ent speedUp c)
      "RequestedSpeedUpV3Deposit"
  ∧ appends_only c (requestV3SlowFill ent request c) "RequestedV3SlowFill"
  ∧ appends_only c
      (setEnableRoute ent originToken destinationChainId enabled
         blockNumber c)
      "EnabledDepositRoute".
Proof.
  split; [|split; [|split; [|split]]].
  - destruct (fillV3Relay_success ent fill c)
      as (ev & em & a & -> & Hstored & Htag & _).
    by exists em.
  - unfold executeV3SlowRelayLeaf.
    match goal with |- context [fillV3Relay ent ?f c] =>
      destruct (fillV3Relay_success ent f c)
        as (ev & em & a & -> & Hstored & Htag & _)
    end.
    by exists em.
  - apply (generateEvent_appends ent
             {| p_event := "RequestedSpeedUpV3Deposit";
                p_address := spokePool_address c;
                p_topics :=
                  [toString (SpeedUp.depositId speedUp);
                   SpeedUp.depositor speedUp];
                p_args := PlainArgs (Some (SpeedUp.depositId speedUp));
                p_blockNumber := None; p_transactionIndex := None |}).
  - apply (generateEvent_appends ent
             {| p_event := "RequestedV3SlowFill";
                p_address := spokePool_address c;
                p_topics :=
                  [toString (SlowFillRequestWithBlock.originChainId request);
                   toString (SlowFillRequestWithBlock.depositId request)];
                p_args :=
                  PlainArgs (Some (SlowFillRequestWithBlock.depositId request));
                p_blockNumber := SlowFillRequestWithBlock.blockNumber request;
                p_transactionIndex :=
                  SlowFillRequestWithBlock.transactionIndex request |}).
  - apply (generateEvent_appends ent
             {| p_event := "EnabledDepositRoute";
                p_address := spokePool_address c;
                p_topics := [originToken; toString destinationChainId];
                p_args := PlainArgs None;
                p_blockNumber := blockNumber; p_transactionIndex := None |}).
Qed.

(** X17.  A refund leaf is synthesized from the client's own chain only: a
    leaf that names another chain makes the call fail with an assertion
    error and leaves the client and the store as they were; a leaf that
    names the client's chain or none appends one ExecutedRelayerRefundRoot
    event whose topics are the client's chain id, the root bundle id and
    the leaf id. *)
Theorem executeRelayerRefundLeaf_checks_chain ent
    (refund : RelayerRefundExecutionWithBlock.t) c :
  (∀ other : Z,
     RelayerRefundExecutionWithBlock.chainId refund = Some other →
     other ≠ chainId c →
     ∃ message,
       executeRelayerRefundLeaf ent refund c =
         (inl (AssertionError message), c))
  ∧ (RelayerRefundExecutionWithBlock.chainId refund = None
     ∨ RelayerRefundExecutionWithBlock.chainId refund = Some (chainId c) →
     ∃ ev,
       (executeRelayerRefundLeaf ent refund c).1 = inr ev
       ∧ appends_only c (ev, (executeRelayerRefundLeaf ent refund c).2)
           "ExecutedRelayerRefundRoot"
       ∧ topics ev =
           [toString (chainId c);
            toString (RelayerRefundExecutionWithBlock.rootBundleId refund);
            toString (RelayerRefundExecutionWithBlock.leafId refund)]).
Proof.
  split.
  - intros other Hchain Hne. unfold executeRelayerRefundLeaf.
    rewrite Hchain. simpl. rewrite bool_decide_eq_false_2 by done. eauto.
  - intros Hchain. unfold executeRelayerRefundLeaf.
    assert (default (chainId c)
              (RelayerRefundExecutionWithBlock.chainId refund) = chainId c)
      as -> by (by destruct Hchain as [-> | ->]).
    rewrite bool_decide_eq_true_2 by done.
    eexists. split; [reflexivity|]. split; [|reflexivity].
    apply (generateEvent_appends ent
             {| p_event := "ExecutedRelayerRefundRoot";
                p_address := spokePool_address c;
                p_topics :=
                  [toString (chainId c);
                   toString
                     (RelayerRefundExecutionWithBlock.rootBundleId refund);
                   toString (RelayerRefundExecutionWithBlock.leafId refund)];
                p_args := PlainArgs None;
                p_blockNumber :=
                  RelayerRefundExecutionWithBlock.blockNumber refund;
                p_transactionIndex := None |}).
Qed.

(** ** The update pass, continued *)

Lemma deposit_events_snoc_other (l : list Event) (ev : Event) :
  event ev ≠ "V3FundsDeposited" →
  deposit_events (l ++ [ev]) = deposit_events l.
Proof.
  intros Hne. unfold deposit_events.
  rewrite filter_app, filter_cons_False by done.
  by rewrite filter_nil, app_nil_r.
Qed.

Lemma deposit_events_snoc_deposit (l : list Event) (ev : Event) :
  event ev = "V3FundsDeposited" →
  deposit_events (l ++ [ev]) = deposit_events l ++ [ev].
Proof.
  intros Htag. unfold deposit_events.
  rewrite filter_app, filter_cons_True by done. by rewrite filter_nil.
Qed.

Lemma _update_latestDepositId_eq ent ent' (q : list string) c c' :
  latestDepositIdQueried c' = latestDepositIdQueried c →
  deposit_events (stored (eventManager c')) =
    deposit_events (stored (eventManager c)) →
  latestDepositId (_update getBlock ent' q c').1 =
    latestDepositId (_update getBlock ent q c).1.
Proof using Type.
  intros Hmark Hdeposits.
  destruct (decide ("V3FundsDeposited" ∈ q)) as [Hin|Hnot].
  - rewrite !(_update_latestDepositId_requested getBlock) by done.
    unfold spec_latestDepositId. by rewrite Hmark, Hdeposits.
  - by rewrite !(_update_latestDepositId_not_requested getBlock).
Qed.

(** X18.  An event of another type appended to the store does not move
    [latestDepositId], even when its payload carries a deposit id (a fill,
    a speed-up, a slow-fill request): the update pass returns the same
    value, and the same bucket at every requested type but the event's
    own, whose first occurrence in the request gains the event at its
    end. *)
Theorem _update_after_appended_event ent ent' (q : list string) c
    (run : Event * @Client Block) (tag : string) :
  appends_only c run tag →
  tag ≠ "V3FundsDeposited" →
  latestDepositId (_update getBlock ent' q run.2).1 =
    latestDepositId (_update getBlock ent q c).1
  ∧ (∀ (i : nat) (type : string),
       q !! i = Some type → type ≠ tag →
       events (_update getBlock ent' q run.2).1 !! i =
         events (_update getBlock ent q c).1 !! i)
  ∧ (∀ i : nat,
       q !! i = Some tag → tag ∉ take i q →
       events (_update getBlock ent' q run.2).1 !! i =
         (λ bucket, bucket ++ [run.1])
           <$> events (_update getBlock ent q c).1 !! i).
Proof.
  intros (em & Hclient & Hstored & Htag) Hne. rewrite Hclient.
  split; [|split].
  - apply _update_latestDepositId_eq; [done|].
    cbn [eventManager set_eventManager]. rewrite Hstored.
    apply deposit_events_snoc_other. by rewrite Htag.
  - intros i type Hi Hother.
    rewrite !(_update_bucket getBlock _ q _ i type Hi).
    cbn [eventManager set_eventManager]. rewrite Hstored.
    unfold spec_bucket. rewrite filter_app, filter_cons_False by congruence.
    by rewrite filter_nil, app_nil_r.
  - intros i Hi Hfirst.
    rewrite !(_update_bucket getBlock _ q _ i tag Hi).
    rewrite !decide_False by done.
    cbn [eventManager set_eventManager]. rewrite Hstored.
    unfold spec_bucket. rewrite filter_app, filter_cons_True by done.
    by rewrite filter_nil.
Qed.

(** X19.  On a client whose stored deposits all have ids below the counter,
    an update that requests the deposit type right after a successful
    deposit call returns the larger of the high-water mark and the id that
    call handed out. *)
Theorem _update_after_depositV3 ent ent' (q : list string)
    (deposit : DepositWithBlock.t) c :
  let id :=
    default (numberOfDeposits c) (DepositWithBlock.depositId deposit) in
  deposits_below_counter c →
  numberOfDeposits c ≤ id →
  "V3FundsDeposited" ∈ q →
  latestDepositId
    (_update getBlock ent' q (depositV3 toBN ent deposit c).2).1 =
    Z.max (latestDepositIdQueried c) id.
Proof.
  intros id Hinv Hge Hin.
  destruct (depositV3_success ent deposit c Hge)
    as (ev & em & a & Hrun & Hstored & Htag & Hargs & _ & Hid & _).
  fold id in Hrun, Hid. rewrite Hrun. cbn [snd].
  rewrite (_update_latestDepositId_requested getBlock) by done.
  cbn [eventManager set_eventManager latestDepositIdQueried
       set_numberOfDeposits]. rewrite Hstored.
  unfold spec_latestDepositId. rewrite deposit_events_snoc_deposit by done.
  assert (depositId_or_zero ev = id) as Hev.
  { unfold depositId_or_zero. rewrite Hargs. simpl. exact Hid. }
  apply Z.le_antisymm.
  - apply foldr_max_least; [lia|].
    intros x (ev' & -> & Hev')%list_elem_of_fmap.
    apply elem_of_app in Hev' as [Hold|Hnew%list_elem_of_singleton].
    + unfold deposit_events in Hold.
      apply list_elem_of_filter in Hold as [Htag' Hold].
      specialize (Hinv ev' Hold Htag'). lia.
    + subst ev'. lia.
  - apply Z.max_lub; [apply foldr_max_start|].
    apply foldr_max_elem, list_elem_of_fmap. exists ev. split; [done|].
    apply elem_of_app. right. by apply list_elem_of_singleton.
Qed.


(** *** The buckets as a partition *)

Lemma concat_alter_snoc (l : list (list Event)) (i : nat) (x : Event) :
  (i < length l)%nat →
  concat (alter (λ bucket, bucket ++ [x]) i l) ≡ₚ concat l ++ [x].
Proof.
  revert i. induction l as [|b l IH]; intros i Hi; simpl in Hi; [lia|].
  destruct i as [|i]; simpl.
  - rewrite <-!app_assoc. apply Permutation_app_head, Permutation_app_comm.
  - rewrite <-app_assoc. apply Permutation_app_head. apply IH. lia.
Qed.

Lemma update_visit_partition (q : list string) (evs : list Event)
    (buckets : list (list Event)) (m : gmap Z Block) :
  length buckets = length q →
  concat (foldl (update_visit getBlock q) (buckets, m) evs).1 ≡ₚ
    concat buckets ++ filter (λ ev, event ev ∈ q) evs.
Proof using Type.
  revert buckets m. induction evs as [|ev evs IH]; intros buckets m Hlen.
  - simpl. by rewrite filter_nil, app_nil_r.
  - cbn [foldl]. unfold update_visit at 2.
    destruct (indexOf q (event ev)) as [idx|] eqn:Hidx.
    + cbn [fst snd]. rewrite IH by by rewrite length_alter.
      apply indexOf_Some in Hidx as Hpos. destruct Hpos as [Hpos _].
      apply lookup_lt_Some in Hpos.
      rewrite concat_alter_snoc by lia.
      rewrite filter_cons_True by (apply indexOf_is_Some; eauto).
      by rewrite <-app_assoc.
    + rewrite IH by done.
      rewrite filter_cons_False; [done|]. by apply indexOf_None.
Qed.

Lemma concat_empty_buckets (q : list string) :
  concat ((λ _, []) <$> q) = @nil Event.
Proof. by induction q. Qed.

(** X21.  Taken together, the buckets of a snapshot hold every stored event
    of a requested type exactly once and no other event, also when the
    request repeats a type: their concatenation is a rearrangement of the
    stored events whose type is requested. *)
Theorem _update_buckets_partition ent (q : list string) c :
  concat (events (_update getBlock ent q c).1) ≡ₚ
    filter (λ ev, event ev ∈ q) (stored (eventManager c)).
Proof.
  destruct (_update_unfold getBlock ent q c) as (-> & _ & _).
  rewrite update_visit_partition by (by rewrite length_fmap).
  by rewrite concat_empty_buckets.
Qed.

(** X22.  The snapshot does not depend on the block number pinned with
    [setLatestBlockNumber]: its end-of-range block is the configured
    [toBlock] when that is set and not 0, and the block counter of the
    event manager otherwise, 0 counting as unset. *)
Theorem _update_ignores_setLatestBlockNumber ent (q : list string)
    (pinned : Z) c :
  (_update getBlock ent q (setLatestBlockNumber pinned c)).1 =
    (_update getBlock ent q c).1
  ∧ (∀ toBlock : Z,
       eventSearchConfig_toBlock c = Some toBlock → toBlock ≠ 0 →
       searchEndBlock (_update getBlock ent q c).1 = toBlock)
  ∧ (eventSearchConfig_toBlock c = None
     ∨ eventSearchConfig_toBlock c = Some 0 →
     searchEndBlock (_update getBlock ent q c).1 =
       em_blockNumber (eventManager c)).
Proof.
  unfold _update, setLatestBlockNumber.
  cbn [eventManager set_latestBlockSearched].
  destruct (foldl _ _ _) as [buckets blocks'].
  split; [reflexivity|]. cbn [fst searchEndBlock
    eventSearchConfig_toBlock set_blocks or_else].
  split.
  - intros toBlock -> Hne. simpl. by rewrite bool_decide_eq_false_2.
  - by intros [-> | ->].
Qed.

End FurtherProperties.

(** * The further statements on the sample data *)

Lemma sample_client_deposits_below_counter :
  deposits_below_counter sample_client.
Proof. intros ev Hin. by apply elem_of_nil in Hin. Qed.

Lemma batchComputeRealizedLpFeePct_pointwise_witness :
  let c := setDefaultRealizedLpFeePct 5 sample_client in
  let evs := stored (eventManager client_after_deposit_7) in
  realizedLpFeePctOverride c = true
  ∧ batchComputeRealizedLpFeePct sample_super_batchComputeRealizedLpFeePct
      evs c =
      (λ ev, computeRealizedLpFeePct sample_super_computeRealizedLpFeePct
               ev c) <$> evs
  ∧ length
      (batchComputeRealizedLpFeePct sample_super_batchComputeRealizedLpFeePct
         evs c) = length evs.
Proof.
  intros c evs. split; [reflexivity|].
  apply (batchComputeRealizedLpFeePct_pointwise
           sample_super_computeRealizedLpFeePct
           sample_super_batchComputeRealizedLpFeePct evs c).
  reflexivity.
Defined.

Lemma getDestinationTokenForDeposit_after_set_witness :
  let token : Address := "0xaaaaaaaaaaaaaaaaaaaaaaaaaaaaaaaaaaaaaaaa" in
  let c' := setDestinationTokenForChain 10 token sample_client in
  getDestinationTokenForDeposit sample_super_getDestinationTokenForDeposit
    (deposit_from_chain 10) c' = token
  ∧ getDestinationTokenForDeposit sample_super_getDestinationTokenForDeposit
      (deposit_from_chain 1) c' =
      default (sample_super_getDestinationTokenForDeposit c'
                 (deposit_from_chain 1))
        (destinationTokenForChainOverride sample_client !! 1)
  ∧ getDestinationTokenForDeposit sample_super_getDestinationTokenForDeposit
      DepositWithBlock.empty c' =
      sample_super_getDestinationTokenForDeposit c' DepositWithBlock.empty.
Proof.
  intros token c'. split; [|split].
  - exact (proj1 (getDestinationTokenForDeposit_after_set
                    sample_super_getDestinationTokenForDeposit 10 token token
                    (deposit_from_chain 10) sample_client) eq_refl).
  - assert (1 ≠ 10) as Hne by lia.
    exact (proj1 (proj2 (getDestinationTokenForDeposit_after_set
                           sample_super_getDestinationTokenForDeposit 10
                           token token (deposit_from_chain 1) sample_client))
             1 eq_refl Hne).
  - exact (proj1 (proj2 (proj2 (getDestinationTokenForDeposit_after_set
                                  sample_super_getDestinationTokenForDeposit
                                  10 token token DepositWithBlock.empty
                                  sample_client))) eq_refl).
Defined.

Lemma setDepositIds_succeeds_iff_nondecreasing_witness :
  nondecreasing [1; 1; 3]
  ∧ setDepositIds [1; 1; 3] sample_client =
      (inr tt, set_depositIdAtBlock [1; 1; 3] sample_client)
  ∧ (setDepositIds [1; 1; 3] sample_client).1 = inr tt.
Proof.
  assert (nondecreasing [1; 1; 3]) as Hsorted by (simpl; lia).
  split; [exact Hsorted|]. split.
  - exact (proj2 (setDepositIds_succeeds_iff_nondecreasing [1; 1; 3]
                    sample_client) Hsorted).
  - exact (proj2 (proj1 (setDepositIds_succeeds_iff_nondecreasing [1; 1; 3]
                           sample_client)) Hsorted).
Defined.

Lemma _getDepositIdAtBlock_after_setDepositIds_witness :
  nondecreasing [1; 1; 3]
  ∧ _getDepositIdAtBlock 2 (setDepositIds [1; 1; 3] sample_client).2 =
      [1; 1; 3] !! 2%nat
  ∧ _getDepositIdAtBlock 5 (setDepositIds [1; 1; 3] sample_client).2 = None.
Proof.
  assert (nondecreasing [1; 1; 3]) as Hsorted by (simpl; lia).
  split; [exact Hsorted|]. split.
  - exact (proj1 (_getDepositIdAtBlock_after_setDepositIds [1; 1; 3] 2
                    sample_client Hsorted)).
  - apply (proj2 (_getDepositIdAtBlock_after_setDepositIds [1; 1; 3] 5
                    sample_client Hsorted)).
    simpl. lia.
Defined.





Lemma fillV3Relay_derived_defaults_witness :
  ∃ a,
    fill_args
      (fillV3Relay sample_entropy (fill_with_outputAmount 40)
         sample_client).1 = Some a
    ∧ ExecutionInfoArgs.fillType (FillArgs.relayExecutionInfo a) = FastFill
    ∧ ExecutionInfoArgs.updatedRecipient (FillArgs.relayExecutionInfo a) =
        FillArgs.recipient a
    ∧ ExecutionInfoArgs.updatedOutputAmount (FillArgs.relayExecutionInfo a)
        = 40
    ∧ FillArgs.fillDeadline a = now sample_entropy + 60
    ∧ FillArgs.exclusivityDeadline a = FillArgs.fillDeadline a
    ∧ FillArgs.repaymentChainId a = chainId sample_client.
Proof.
  destruct (fillV3Relay_derived_defaults sample_entropy
              (fill_with_outputAmount 40) sample_client)
    as (a & Hargs & Hinfo & Hdeadlines & Hrepay).
  exists a. split; [exact Hargs|].
  destruct (Hinfo eq_refl) as (Htype & Hrcp & _ & Hout & _).
  split; [exact Htype|]. split; [exact Hrcp|].
  split; [exact (Hout 40 eq_refl)|].
  split; [exact (proj1 (Hdeadlines eq_refl eq_refl))|].
  split; [exact (proj2 (Hdeadlines eq_refl eq_refl)) | exact (Hrepay eq_refl)].
Defined.

Lemma executeV3SlowRelayLeaf_overrides_relay_data_witness :
  SlowFillLeaf.updatedOutputAmount sample_leaf = Some 25
  ∧ ∃ a,
      fill_args (executeV3SlowRelayLeaf sample_entropy sample_leaf
                   sample_client).1 = Some a
      ∧ FillArgs.repaymentChainId a = 0
      ∧ ExecutionInfoArgs.updatedOutputAmount (FillArgs.relayExecutionInfo a)
          = 25.
Proof.
  split; [reflexivity|].
  destruct (executeV3SlowRelayLeaf_overrides_relay_data sample_entropy
              sample_leaf sample_client)
    as (a & Hargs & Hrepay & _ & _ & _ & Hamount).
  exists a. split; [exact Hargs|]. split; [exact Hrepay|].
  exact (Hamount 25 eq_refl).
Defined.

Lemma executeRelayerRefundLeaf_checks_chain_witness :
  (∃ message,
     executeRelayerRefundLeaf sample_entropy (refund_on_chain (Some 5))
       sample_client = (inl (AssertionError message), sample_client))
  ∧ ∃ ev,
      (executeRelayerRefundLeaf sample_entropy (refund_on_chain None)
         sample_client).1 = inr ev
      ∧ topics ev = [toString (chainId sample_client); toString 4; toString 2].
Proof.
  split.
  - apply (proj1 (executeRelayerRefundLeaf_checks_chain sample_entropy
                    (refund_on_chain (Some 5)) sample_client) 5).
    + reflexivity.
    + vm_compute. discriminate.
  - destruct (proj2 (executeRelayerRefundLeaf_checks_chain sample_entropy
                       (refund_on_chain None) sample_client)
                (or_introl eq_refl))
      as (ev & Hrun & _ & Htopics).
    exists ev. split; [exact Hrun | exact Htopics].
Defined.

Lemma _update_after_appended_event_witness :
  let c := client_after_deposit_7 in
  let run := fillV3Relay sample_entropy FillWithBlock.empty c in
  let q := ["V3FundsDeposited"; "FilledV3Relay"] in
  appends_only c run "FilledV3Relay"
  ∧ latestDepositId (_update sample_getBlock sample_entropy q run.2).1 =
      latestDepositId (_update sample_getBlock sample_entropy q c).1
  ∧ events (_update sample_getBlock sample_entropy q run.2).1 !! 0%nat =
      events (_update sample_getBlock sample_entropy q c).1 !! 0%nat.
Proof.
  intros c run q.
  assert (appends_only c run "FilledV3Relay") as Happends.
  { eexists. split; [reflexivity|]. split; reflexivity. }
  split; [exact Happends|].
  destruct (_update_after_appended_event sample_getBlock sample_entropy
              sample_entropy q c run "FilledV3Relay" Happends)
    as (Hlatest & Hother & _); [discriminate|].
  split; [exact Hlatest|].
  apply (Hother 0%nat "V3FundsDeposited"); [reflexivity | discriminate].
Defined.

Lemma _update_after_depositV3_witness :
  deposits_below_counter sample_client
  ∧ latestDepositId
      (_update sample_getBlock sample_entropy ["V3FundsDeposited"]
         (depositV3 sample_toBN sample_entropy (deposit_with_id 7)
            sample_client).2).1 =
      Z.max (latestDepositIdQueried sample_client) 7.
Proof.
  split; [exact sample_client_deposits_below_counter|].
  apply (_update_after_depositV3 sample_getBlock sample_toBN sample_entropy
           sample_entropy ["V3FundsDeposited"] (deposit_with_id 7)
           sample_client).
  - exact sample_client_deposits_below_counter.
  - vm_compute. discriminate.
  - compute_done.
Defined.


Lemma _update_ignores_setLatestBlockNumber_witness :
  searchEndBlock
    (_update sample_getBlock sample_entropy [] (client_with_toBlock (Some 50))).1
    = 50
  ∧ searchEndBlock
      (_update sample_getBlock sample_entropy []
         (client_with_toBlock (Some 0))).1 =
      em_blockNumber (eventManager (client_with_toBlock (Some 0))).
Proof.
  split.
  - apply (proj1 (proj2 (_update_ignores_setLatestBlockNumber sample_getBlock
                           sample_entropy [] 0
                           (client_with_toBlock (Some 50)))) 50);
      [reflexivity | lia].
  - apply (proj2 (proj2 (_update_ignores_setLatestBlockNumber sample_getBlock
                           sample_entropy [] 0
                           (client_with_toBlock (Some 0))))).
    right. reflexivity.
Defined.
